(** * vbcli: message composition and transport layer

    A shallow embedding of the parts of [cmd/template_aliases.go],
    [cmd/root.go] and [internal/vestaboard/client.go] that turn user input
    into compose/write requests, with the properties the specification
    states about them.

    Go strings are byte sequences; they are modelled as [list ascii]
    (one [ascii] per byte).  The functions of Go's [strings] package work
    on UTF-8; the models below are exact on ASCII input, which is the
    domain the statements about the alias resolver are given on
    ([asciiOnly]). *)

#[local] Set Warnings "-register-all".
From Stdlib Require Import Ascii String.
From Stdlib Require Import ZArith NArith List Bool Lia.
From Stdlib Require Import Numbers.DecimalString.
From Stdlib Require Numbers.DecimalPos.
Import ListNotations.

Local Open Scope char_scope.
Local Open Scope list_scope.

(** ** Byte strings *)

Definition bytes := list ascii.

(** A Go string literal. *)
Definition B (s : string) : bytes := list_ascii_of_string s.

Definition isAscii (c : ascii) : bool := (N_of_ascii c <? 128)%N.

Definition asciiOnly (s : bytes) : Prop := forallb isAscii s = true.

(** [strings.HasPrefix]. *)
Fixpoint hasPrefix (s prefix : bytes) {struct prefix} : bool :=
  match prefix, s with
  | [], _ => true
  | _ :: _, [] => false
  | p :: prefix', c :: s' => Ascii.eqb c p && hasPrefix s' prefix'
  end.

(** [strings.HasSuffix]. *)
Definition hasSuffix (s suffix : bytes) : bool :=
  hasPrefix (rev s) (rev suffix).

(** [strings.Index]: offset of the first occurrence of [sub], Go's [-1]
    being [None]. *)
Fixpoint index (s sub : bytes) : option nat :=
  if hasPrefix s sub then Some O
  else match s with
       | [] => None
       | _ :: s' => option_map S (index s' sub)
       end.

(** [strings.IndexByte]. *)
Fixpoint indexByte (s : bytes) (c : ascii) : option nat :=
  match s with
  | [] => None
  | x :: s' => if Ascii.eqb x c then Some O else option_map S (indexByte s' c)
  end.

(** The slice expression [s[lo:hi]]. *)
Definition slice (s : bytes) (lo hi : nat) : bytes :=
  firstn (hi - lo) (skipn lo s).

(** [unicode.IsSpace] on ASCII: tab, line feed, vertical tab, form feed,
    carriage return and space. *)
Definition isSpace (c : ascii) : bool :=
  Ascii.eqb c "009" || Ascii.eqb c "010" || Ascii.eqb c "011" ||
  Ascii.eqb c "012" || Ascii.eqb c "013" || Ascii.eqb c " ".

Fixpoint trimLeft (s : bytes) : bytes :=
  match s with
  | [] => []
  | c :: s' => if isSpace c then trimLeft s' else s
  end.

Definition trimRight (s : bytes) : bytes := rev (trimLeft (rev s)).

(** [strings.TrimSpace]. *)
Definition TrimSpace (s : bytes) : bytes := trimRight (trimLeft s).

(** [strings.ToLower] on ASCII. *)
Definition toLowerByte (c : ascii) : ascii :=
  let n := N_of_ascii c in
  if ((65 <=? n) && (n <=? 90))%N then ascii_of_N (n + 32) else c.

Definition ToLower (s : bytes) : bytes := map toLowerByte s.

(** [strings.NewReplacer("_", " ", "-", " ").Replace]. *)
Definition foldSeparator (c : ascii) : ascii :=
  if Ascii.eqb c "_" || Ascii.eqb c "-" then " " else c.

Definition replaceSeparators (s : bytes) : bytes := map foldSeparator s.

(** [strings.Fields]: the maximal runs of non-space bytes.  [cur] holds the
    bytes of the field being read, last byte first. *)
Fixpoint fieldsFrom (cur : bytes) (s : bytes) : list bytes :=
  match s with
  | [] => match cur with [] => [] | _ :: _ => [rev cur] end
  | c :: s' =>
      if isSpace c then
        match cur with
        | [] => fieldsFrom [] s'
        | _ :: _ => rev cur :: fieldsFrom [] s'
        end
      else fieldsFrom (c :: cur) s'
  end.

Definition Fields (s : bytes) : list bytes := fieldsFrom [] s.

(** [strings.Join]. *)
Fixpoint Join (elems : list bytes) (sep : bytes) : bytes :=
  match elems with
  | [] => []
  | [e] => e
  | e :: rest => e ++ sep ++ Join rest sep
  end.

(** ** Integers as text *)

Definition isDigit (c : ascii) : bool :=
  let n := N_of_ascii c in ((48 <=? n) && (n <=? 57))%N.

Definition digitVal (c : ascii) : Z := Z.of_N (N_of_ascii c) - 48.

Fixpoint parseDigits (acc : Z) (s : bytes) : option Z :=
  match s with
  | [] => Some acc
  | c :: s' => if isDigit c then parseDigits (10 * acc + digitVal c) s' else None
  end.

(** [strconv.ParseInt(s, 10, 64)] as to its value and its failure: an
    optional sign, one decimal digit or more, and a value that fits the
    signed 64-bit range. *)
Definition parseInt64 (s : bytes) : option Z :=
  let '(neg, digits) :=
    match s with
    | "-" :: r => (true, r)
    | "+" :: r => (false, r)
    | _ => (false, s)
    end in
  match digits with
  | [] => None
  | _ :: _ =>
      match parseDigits 0 digits with
      | None => None
      | Some n =>
          let v := if neg then (- n)%Z else n in
          if ((- 2 ^ 63 <=? v) && (v <=? 2 ^ 63 - 1))%Z then Some v else None
      end
  end.

(** [strconv.Atoi] (the platform [int] has 64 bits). *)
Definition Atoi (s : bytes) : option Z := parseInt64 s.

(** The verb [%d] of [fmt.Sprintf]. *)
Definition formatInt (n : Z) : bytes :=
  list_ascii_of_string (NilEmpty.string_of_int (Z.to_int n)).

(** ** The alias table and the token resolver ([cmd/template_aliases.go]) *)

Definition templateCharacterAliases : list (bytes * Z) :=
  [ (B "blank", 0); (B "space", 0);
    (B "exclamation", 37); (B "exclamation mark", 37);
    (B "at", 38); (B "pound", 39); (B "hash", 39); (B "dollar", 40);
    (B "left parenthesis", 41); (B "open parenthesis", 41);
    (B "right parenthesis", 42); (B "close parenthesis", 42);
    (B "hyphen", 44); (B "dash", 44); (B "plus", 46); (B "ampersand", 47);
    (B "equal", 48); (B "equals", 48); (B "semicolon", 49); (B "colon", 50);
    (B "single quote", 52); (B "apostrophe", 52); (B "double quote", 53);
    (B "percent", 54); (B "comma", 55); (B "period", 56); (B "dot", 56);
    (B "slash", 59); (B "forward slash", 59);
    (B "question", 60); (B "question mark", 60);
    (B "degree", 62); (B "heart", 62);
    (B "red", 63); (B "orange", 64); (B "yellow", 65); (B "green", 66);
    (B "blue", 67); (B "violet", 68); (B "purple", 68);
    (B "white", 69); (B "black", 70); (B "filled", 71) ]%Z.

Definition bytesEqb (a b : bytes) : bool :=
  if list_eq_dec ascii_dec a b then true else false.

(** The map access [templateCharacterAliases[key]]. *)
Fixpoint aliasLookup (tbl : list (bytes * Z)) (key : bytes) : option Z :=
  match tbl with
  | [] => None
  | (k, v) :: tbl' => if bytesEqb k key then Some v else aliasLookup tbl' key
  end.

Definition canonicalAlias (input : bytes) : bytes :=
  let lower := ToLower (TrimSpace input) in
  let lower := replaceSeparators lower in
  Join (Fields lower) (B " ").

Definition rewriteTemplateToken (token : bytes) : bytes :=
  match token with
  | [] => B "{}"
  | _ :: _ =>
      match Atoi token with
      | Some _ => B "{" ++ token ++ B "}"
      | None =>
          let key := canonicalAlias token in
          match aliasLookup templateCharacterAliases key with
          | Some code => B "{" ++ formatInt code ++ B "}"
          | None => B "{" ++ token ++ B "}"
          end
      end
  end.

(** The loop of [substituteTemplateCharacterAliases]: [i] is the scanner's
    position in [input] and [out] the builder's contents.  Every iteration
    moves [i] forward, so [length input] iterations are enough. *)
Fixpoint scanLoop (fuel : nat) (input : bytes) (i : nat) (out : bytes) : bytes :=
  match fuel with
  | O => out
  | S fuel' =>
      if (i <? length input)%nat then
        if hasPrefix (skipn i input) (B "{{") then
          match index (skipn (i + 2) input) (B "}}") with
          | None => out ++ skipn i input
          | Some e =>
              let e' := e + (i + 4) in
              scanLoop fuel' input e' (out ++ slice input i e')
          end
        else if negb (Ascii.eqb (nth i input "000") "{") then
          scanLoop fuel' input (i + 1) (out ++ [nth i input "000"])
        else
          match indexByte (skipn (i + 1) input) "}" with
          | None => out ++ skipn i input
          | Some e =>
              let e' := e + (i + 1) in
              let token := TrimSpace (slice input (i + 1) e') in
              scanLoop fuel' input (e' + 1) (out ++ rewriteTemplateToken token)
          end
      else out
  end.

Definition substituteTemplateCharacterAliases (input : bytes) : bytes :=
  scanLoop (length input) input 0 [].

(** The same scan as a function of the unread suffix [input[i:]], which is
    all an iteration looks at. *)
Fixpoint scanFrom (fuel : nat) (s : bytes) : bytes :=
  match fuel with
  | O => []
  | S fuel' =>
      match s with
      | [] => []
      | c :: s' =>
          if hasPrefix s (B "{{") then
            match index (skipn 2 s) (B "}}") with
            | None => s
            | Some e => firstn (e + 4) s ++ scanFrom fuel' (skipn (e + 4) s)
            end
          else if negb (Ascii.eqb c "{") then c :: scanFrom fuel' s'
          else
            match indexByte s' "}" with
            | None => s
            | Some e =>
                rewriteTemplateToken (TrimSpace (firstn e s'))
                  ++ scanFrom fuel' (skipn (e + 1) s')
            end
      end
  end.

Definition scan (s : bytes) : bytes := scanFrom (length s) s.

(** ** Positions of the scanner (specification side)

    The prefixes of an input at whose end the scanner stands after some
    iterations: built from bytes other than [{], single-brace tokens and
    double-brace spans that are closed. *)
Inductive scannedPrefix : bytes -> Prop :=
| scanned_start : scannedPrefix []
| scanned_plain (pre : bytes) (c : ascii) :
    scannedPrefix pre -> c <> "{" -> scannedPrefix (pre ++ [c])
| scanned_token (pre interior : bytes) :
    scannedPrefix pre ->
    ~ In "}" interior -> hasPrefix interior (B "{") = false ->
    scannedPrefix (pre ++ B "{" ++ interior ++ B "}")
| scanned_span (pre interior : bytes) :
    scannedPrefix pre ->
    index (interior ++ B "}}") (B "}}") = Some (length interior) ->
    scannedPrefix (pre ++ B "{{" ++ interior ++ B "}}").

(** ** Spellings of an alias (specification side)

    The ways the specification lets a key of the table be written inside
    the braces: every letter in either case, and every space of the key as
    a run of one or more separators (white space, [_] or [-]). *)

Definition isLowerLetter (c : ascii) : bool :=
  let n := N_of_ascii c in ((97 <=? n) && (n <=? 122))%N.

Definition isSeparator (c : ascii) : bool :=
  isSpace c || Ascii.eqb c "_" || Ascii.eqb c "-".

Inductive aliasVariant : bytes -> bytes -> Prop :=
| variant_end : aliasVariant [] []
| variant_letter (c c' : ascii) (k k' : bytes) :
    isLowerLetter c = true -> toLowerByte c' = c ->
    aliasVariant k k' -> aliasVariant (c :: k) (c' :: k')
| variant_space (sep k k' : bytes) :
    sep <> [] -> forallb isSeparator sep = true ->
    aliasVariant k k' -> aliasVariant (" " :: k) (sep ++ k').

(** The shape of the table's keys: lowercase words separated by single
    spaces. *)
Definition isKeyByte (c : ascii) : bool := isLowerLetter c || Ascii.eqb c " ".

Definition keyShape (k : bytes) : bool :=
  forallb isKeyByte k
  && match k with c :: _ => isLowerLetter c | [] => false end
  && bytesEqb (Join (Fields k) (B " ")) k.

(** ** UTF-8 ([unicode/utf8]) *)

Local Open Scope Z_scope.

Definition byteOf (n : Z) : ascii := ascii_of_N (Z.to_N n).
Definition valOf (c : ascii) : Z := Z.of_N (N_of_ascii c).

(** [utf8.ValidRune]. *)
Definition validRune (r : Z) : bool :=
  ((0 <=? r) && (r <? 55296) || (57343 <? r) && (r <=? 1114111))%Z.

(** The encoding of U+FFFD, which stands for a byte that is not UTF-8. *)
Definition runeError : bytes := [byteOf 239; byteOf 191; byteOf 189].

(** [utf8.AppendRune]. *)
Definition encodeRune (r : Z) : bytes :=
  if negb (validRune r) then runeError
  else if (r <=? 127)%Z then [byteOf r]
  else if (r <=? 2047)%Z then
    [byteOf (192 + r / 64); byteOf (128 + r mod 64)]
  else if (r <=? 65535)%Z then
    [byteOf (224 + r / 4096); byteOf (128 + (r / 64) mod 64);
     byteOf (128 + r mod 64)]
  else
    [byteOf (240 + r / 262144); byteOf (128 + (r / 4096) mod 64);
     byteOf (128 + (r / 64) mod 64); byteOf (128 + r mod 64)].

Definition inRange (lo hi : Z) (c : ascii) : bool :=
  ((lo <=? valOf c) && (valOf c <=? hi))%Z.

(** The width [utf8.DecodeRuneInString] reports for the sequence at the
    head of [s], which starts with a byte of 0x80 or more; [None] when the
    bytes there are no encoding of a rune (Go then yields U+FFFD, width 1). *)
Definition runeWidth (s : bytes) : option nat :=
  match s with
  | [] => None
  | s0 :: t =>
      let cont := inRange 128%Z 191%Z in
      let two := fun lo hi =>
        match t with
        | s1 :: _ => if inRange lo hi s1 then Some 2%nat else None
        | _ => None
        end in
      let three := fun lo hi =>
        match t with
        | s1 :: s2 :: _ => if inRange lo hi s1 && cont s2 then Some 3%nat else None
        | _ => None
        end in
      let four := fun lo hi =>
        match t with
        | s1 :: s2 :: s3 :: _ =>
            if inRange lo hi s1 && cont s2 && cont s3 then Some 4%nat else None
        | _ => None
        end in
      let b := valOf s0 in
      if (b <? 194)%Z then None
      else if (b <=? 223)%Z then two 128%Z 191%Z
      else if (b =? 224)%Z then three 160%Z 191%Z
      else if (b =? 237)%Z then three 128%Z 159%Z
      else if (b <=? 239)%Z then three 128%Z 191%Z
      else if (b =? 240)%Z then four 144%Z 191%Z
      else if (b <=? 243)%Z then four 128%Z 191%Z
      else if (b =? 244)%Z then four 128%Z 143%Z
      else None
  end.

(** ** Unquoting ([strconv.Unquote]) *)

Definition hexVal (c : ascii) : option Z :=
  if inRange 48 57 c then Some (valOf c - 48)
  else if inRange 97 102 c then Some (valOf c - 87)
  else if inRange 65 70 c then Some (valOf c - 55)
  else None.

(** The value of the hexadecimal digits [ds], most significant first. *)
Fixpoint hexNumber (acc : Z) (ds : bytes) : option Z :=
  match ds with
  | [] => Some acc
  | d :: ds' =>
      match hexVal d with
      | Some v => hexNumber (16 * acc + v) ds'
      | None => None
      end
  end.

Definition octVal (c : ascii) : option Z :=
  if inRange 48 55 c then Some (valOf c - 48) else None.

Local Close Scope Z_scope.

(** The body of a double-quoted Go string literal, unquoted: the loop of
    [strconv.Unquote] over [strconv.UnquoteChar] for the double quote.
    [None] is [ErrSyntax].  [pending] counts the bytes still to copy of a
    UTF-8 sequence whose first byte has been read. *)
Fixpoint unquoteBody (pending : nat) (s : bytes) : option bytes :=
  let emit := fun (out : bytes) (rest : option bytes) =>
    match rest with Some r => Some (out ++ r) | None => None end in
  match s with
  | [] => Some []
  | c :: s' =>
      match pending with
      | S p => emit [c] (unquoteBody p s')
      | O =>
          if Ascii.eqb c "034" then None          (* an unescaped quote *)
          else if Ascii.eqb c "010" then None     (* a raw line feed *)
          else if Ascii.eqb c "\" then
            match s' with
            | [] => None
            | e :: r =>
                if Ascii.eqb e "a" then emit ["007"] (unquoteBody 0 r)
                else if Ascii.eqb e "b" then emit ["008"] (unquoteBody 0 r)
                else if Ascii.eqb e "f" then emit ["012"] (unquoteBody 0 r)
                else if Ascii.eqb e "n" then emit ["010"] (unquoteBody 0 r)
                else if Ascii.eqb e "r" then emit ["013"] (unquoteBody 0 r)
                else if Ascii.eqb e "t" then emit ["009"] (unquoteBody 0 r)
                else if Ascii.eqb e "v" then emit ["011"] (unquoteBody 0 r)
                else if Ascii.eqb e "\" then emit ["\"] (unquoteBody 0 r)
                else if Ascii.eqb e "034" then emit ["034"] (unquoteBody 0 r)
                else if Ascii.eqb e "x" then
                  match r with
                  | h1 :: h2 :: r' =>
                      match hexNumber 0%Z [h1; h2] with
                      | Some v => emit [byteOf v] (unquoteBody 0 r')
                      | None => None
                      end
                  | _ => None
                  end
                else if Ascii.eqb e "u" then
                  match r with
                  | h1 :: h2 :: h3 :: h4 :: r' =>
                      match hexNumber 0%Z [h1; h2; h3; h4] with
                      | Some v =>
                          if validRune v
                          then emit (encodeRune v) (unquoteBody 0 r')
                          else None
                      | None => None
                      end
                  | _ => None
                  end
                else if Ascii.eqb e "U" then
                  match r with
                  | h1 :: h2 :: h3 :: h4 :: h5 :: h6 :: h7 :: h8 :: r' =>
                      match hexNumber 0%Z [h1; h2; h3; h4; h5; h6; h7; h8] with
                      | Some v =>
                          if validRune v
                          then emit (encodeRune v) (unquoteBody 0 r')
                          else None
                      | None => None
                      end
                  | _ => None
                  end
                else
                  match octVal e, r with
                  | Some v0, o1 :: o2 :: r' =>
                      match octVal o1, octVal o2 with
                      | Some v1, Some v2 =>
                          let v := (64 * v0 + 8 * v1 + v2)%Z in
                          if (255 <? v)%Z then None
                          else emit [byteOf v] (unquoteBody 0 r')
                      | _, _ => None
                      end
                  | _, _ => None
                  end
            end
          else if isAscii c then emit [c] (unquoteBody 0 s')
          else
            match runeWidth s with
            | Some w => emit [c] (unquoteBody (w - 1) s')
            | None => emit runeError (unquoteBody 0 s')
            end
      end
  end.

(** [strconv.Unquote] of the literal made of [body] between double quotes. *)
Definition UnquoteQuoted (body : bytes) : option bytes := unquoteBody 0 body.

(** [decodeEscapes] of [cmd/root.go]. *)
Definition decodeEscapes (input : bytes) : bytes :=
  match UnquoteQuoted input with
  | None => input
  | Some unquoted => unquoted
  end.


(** ** JSON ([encoding/json])

    A JSON text is read as Go's scanner reads it, one byte at a time, with
    a stack of the arrays and objects that are open.  A number keeps its
    literal; a string is held unquoted. *)

Inductive json : Type :=
| JNull
| JBool (b : bool)
| JNumber (literal : bytes)
| JString (s : bytes)
| JArray (elems : list json)
| JObject (members : list (bytes * json)).

(** What is open around the scanner: an array with its elements so far
    (last one first), an object with its members so far, or an object whose
    member [key] is being read. *)
Inductive frame : Type :=
| FArray (done : list json)
| FObject (done : list (bytes * json))
| FMember (done : list (bytes * json)) (key : bytes).

Inductive numState : Type :=
| NNeg | NZero | NInt | NDot | NFrac | NExp | NExpSign | NExpDigits.

Inductive mode : Type :=
| MValue | MValueOrClose | MKeyOrClose | MKey | MColon | MAfter
| MString (isKey : bool) (acc : bytes)
| MStringEsc (isKey : bool) (acc : bytes)
| MStringHex (isKey : bool) (acc : bytes) (more : nat)
| MNumber (st : numState) (acc : bytes)
| MLiteral (rest : bytes) (v : json)
| MError.

Record scanner : Type := mkScanner {
  smode : mode;
  sstack : list frame;
  sresult : option json
}.

Definition scanError : scanner := mkScanner MError [] None.

Definition isJSONSpace (c : ascii) : bool :=
  Ascii.eqb c " " || Ascii.eqb c "009" || Ascii.eqb c "013" || Ascii.eqb c "010".

Definition isHexDigit (c : ascii) : bool :=
  match hexVal c with Some _ => true | None => false end.

(** The text of a JSON string between its quotes, unquoted.  The scanner
    has checked the escapes.  A [\u] escape of a surrogate is read with the
    one that follows it when the two make a pair, and stands for U+FFFD
    otherwise. *)
Fixpoint unquoteJSON (s : bytes) : bytes :=
  match s with
  | [] => []
  | "\" :: "u" :: h1 :: h2 :: h3 :: h4 :: r =>
      match hexNumber 0%Z [h1; h2; h3; h4] with
      | None => unquoteJSON r
      | Some v =>
          if ((55296 <=? v) && (v <=? 56319))%Z then
            match r with
            | "\" :: "u" :: g1 :: g2 :: g3 :: g4 :: r' =>
                match hexNumber 0%Z [g1; g2; g3; g4] with
                | Some w =>
                    if ((56320 <=? w) && (w <=? 57343))%Z
                    then encodeRune (65536 + (v - 55296) * 1024 + (w - 56320))%Z
                           ++ unquoteJSON r'
                    else runeError ++ unquoteJSON r
                | None => runeError ++ unquoteJSON r
                end
            | _ => runeError ++ unquoteJSON r
            end
          else encodeRune v ++ unquoteJSON r
      end
  | "\" :: e :: r =>
      (if Ascii.eqb e "b" then "008"
       else if Ascii.eqb e "f" then "012"
       else if Ascii.eqb e "n" then "010"
       else if Ascii.eqb e "r" then "013"
       else if Ascii.eqb e "t" then "009"
       else e) :: unquoteJSON r
  | c :: r => c :: unquoteJSON r
  end.

(** A value has been read: it goes to the array or member that is open, or
    is the value of the text. *)
Definition endValue (v : json) (stk : list frame) (res : option json) : scanner :=
  match stk with
  | [] => mkScanner MAfter [] (Some v)
  | FArray done :: stk' => mkScanner MAfter (FArray (v :: done) :: stk') res
  | FMember done key :: stk' =>
      mkScanner MAfter (FObject ((key, v) :: done) :: stk') res
  | FObject _ :: _ => scanError
  end.

(** Go's scanner gives up beyond 10000 open arrays and objects. *)
Definition pushFrame (f : frame) (m : mode) (stk : list frame)
    (res : option json) : scanner :=
  if (N.of_nat (length (f :: stk)) <=? 10000)%N
  then mkScanner m (f :: stk) res
  else scanError.

(** After a value: a comma, the end of what is open, or white space. *)
Definition stepAfter (c : ascii) (stk : list frame) (res : option json) : scanner :=
  if isJSONSpace c then mkScanner MAfter stk res
  else
    match stk with
    | FArray done :: stk' =>
        if Ascii.eqb c "," then mkScanner MValue stk res
        else if Ascii.eqb c "]" then endValue (JArray (rev done)) stk' res
        else scanError
    | FObject done :: stk' =>
        if Ascii.eqb c "," then mkScanner MKey stk res
        else if Ascii.eqb c "}" then endValue (JObject (rev done)) stk' res
        else scanError
    | _ => scanError
    end.

(** At the start of a value. *)
Definition stepValue (c : ascii) (stk : list frame) (res : option json) : scanner :=
  if isJSONSpace c then mkScanner MValue stk res
  else if Ascii.eqb c "{" then pushFrame (FObject []) MKeyOrClose stk res
  else if Ascii.eqb c "[" then pushFrame (FArray []) MValueOrClose stk res
  else if Ascii.eqb c "034" then mkScanner (MString false []) stk res
  else if Ascii.eqb c "-" then mkScanner (MNumber NNeg [c]) stk res
  else if Ascii.eqb c "0" then mkScanner (MNumber NZero [c]) stk res
  else if isDigit c then mkScanner (MNumber NInt [c]) stk res
  else if Ascii.eqb c "t" then mkScanner (MLiteral (B "rue") (JBool true)) stk res
  else if Ascii.eqb c "f" then mkScanner (MLiteral (B "alse") (JBool false)) stk res
  else if Ascii.eqb c "n" then mkScanner (MLiteral (B "ull") JNull) stk res
  else scanError.

(** Inside a number; a byte that cannot go on with the number ends it and
    is read as what follows a value. *)
Definition stepNumber (st : numState) (acc : bytes) (c : ascii)
    (stk : list frame) (res : option json) : scanner :=
  let go := fun st' => mkScanner (MNumber st' (c :: acc)) stk res in
  let isE := Ascii.eqb c "e" || Ascii.eqb c "E" in
  let finish :=
    let s := endValue (JNumber (rev acc)) stk res in
    match smode s with
    | MAfter => stepAfter c (sstack s) (sresult s)
    | _ => scanError
    end in
  match st with
  | NNeg => if Ascii.eqb c "0" then go NZero
            else if isDigit c then go NInt else scanError
  | NZero => if Ascii.eqb c "." then go NDot
             else if isE then go NExp else finish
  | NInt => if isDigit c then go NInt
            else if Ascii.eqb c "." then go NDot
            else if isE then go NExp else finish
  | NDot => if isDigit c then go NFrac else scanError
  | NFrac => if isDigit c then go NFrac
             else if isE then go NExp else finish
  | NExp => if Ascii.eqb c "+" || Ascii.eqb c "-" then go NExpSign
            else if isDigit c then go NExpDigits else scanError
  | NExpSign => if isDigit c then go NExpDigits else scanError
  | NExpDigits => if isDigit c then go NExpDigits else finish
  end.

(** The closing quote of a string. *)
Definition endString (isKey : bool) (acc : bytes) (stk : list frame)
    (res : option json) : scanner :=
  let s := unquoteJSON (rev acc) in
  if isKey then
    match stk with
    | FObject done :: stk' => mkScanner MColon (FMember done s :: stk') res
    | _ => scanError
    end
  else endValue (JString s) stk res.

(** One byte through the scanner. *)
Definition scanStep (s : scanner) (c : ascii) : scanner :=
  let stk := sstack s in
  let res := sresult s in
  match smode s with
  | MError => scanError
  | MValue => stepValue c stk res
  | MValueOrClose =>
      if isJSONSpace c then s
      else if Ascii.eqb c "]" then
        match stk with
        | FArray _ :: stk' => endValue (JArray []) stk' res
        | _ => scanError
        end
      else stepValue c stk res
  | MKeyOrClose =>
      if isJSONSpace c then s
      else if Ascii.eqb c "}" then
        match stk with
        | FObject _ :: stk' => endValue (JObject []) stk' res
        | _ => scanError
        end
      else if Ascii.eqb c "034" then mkScanner (MString true []) stk res
      else scanError
  | MKey =>
      if isJSONSpace c then s
      else if Ascii.eqb c "034" then mkScanner (MString true []) stk res
      else scanError
  | MColon =>
      if isJSONSpace c then s
      else if Ascii.eqb c ":" then mkScanner MValue stk res
      else scanError
  | MAfter => stepAfter c stk res
  | MString isKey acc =>
      if Ascii.eqb c "034" then endString isKey acc stk res
      else if Ascii.eqb c "\" then mkScanner (MStringEsc isKey (c :: acc)) stk res
      else if (N_of_ascii c <? 32)%N then scanError
      else mkScanner (MString isKey (c :: acc)) stk res
  | MStringEsc isKey acc =>
      if Ascii.eqb c "b" || Ascii.eqb c "f" || Ascii.eqb c "n" ||
         Ascii.eqb c "r" || Ascii.eqb c "t" || Ascii.eqb c "\" ||
         Ascii.eqb c "/" || Ascii.eqb c "034"
      then mkScanner (MString isKey (c :: acc)) stk res
      else if Ascii.eqb c "u" then mkScanner (MStringHex isKey (c :: acc) 4) stk res
      else scanError
  | MStringHex isKey acc more =>
      if isHexDigit c then
        match more with
        | S (S n) => mkScanner (MStringHex isKey (c :: acc) (S n)) stk res
        | _ => mkScanner (MString isKey (c :: acc)) stk res
        end
      else scanError
  | MNumber st acc => stepNumber st acc c stk res
  | MLiteral rest v =>
      match rest with
      | [x] => if Ascii.eqb c x then endValue v stk res else scanError
      | x :: rest' =>
          if Ascii.eqb c x then mkScanner (MLiteral rest' v) stk res
          else scanError
      | [] => scanError
      end
  end.

(** The end of the text: a number may end there. *)
Definition scanEOF (s : scanner) : option json :=
  let s' :=
    match smode s with
    | MNumber st acc =>
        match st with
        | NZero | NInt | NFrac | NExpDigits =>
            endValue (JNumber (rev acc)) (sstack s) (sresult s)
        | _ => scanError
        end
    | _ => s
    end in
  match smode s', sstack s' with
  | MAfter, [] => sresult s'
  | _, _ => None
  end.

(** The value of a JSON text, [None] for a text Go's [json.Unmarshal]
    rejects as not being JSON. *)
Definition jsonParse (text : bytes) : option json :=
  scanEOF (fold_left scanStep text (mkScanner MValue [] None)).

(** *** Decoding into [[][]int] and into the compose response

    [json.Unmarshal] stores into the value it is given: [null] leaves an
    [int] as it is and makes a slice nil; an array is stored element by
    element over the elements that are there.  Any other JSON value is a
    type error, which makes the whole call fail ([None]). *)

Definition decodeInt (cur : Z) (v : json) : option Z :=
  match v with
  | JNull => Some cur
  | JNumber literal => parseInt64 literal
  | _ => None
  end.

Fixpoint decodeElems {A : Type} (dec : A -> json -> option A) (zero : A)
    (cur : list A) (vs : list json) : option (list A) :=
  match vs with
  | [] => Some []
  | v :: vs' =>
      let old := match cur with [] => zero | o :: _ => o end in
      match dec old v, decodeElems dec zero (tl cur) vs' with
      | Some x, Some xs => Some (x :: xs)
      | _, _ => None
      end
  end.

Definition decodeRow (cur : list Z) (v : json) : option (list Z) :=
  match v with
  | JNull => Some []
  | JArray vs => decodeElems decodeInt 0%Z cur vs
  | _ => None
  end.

Definition decodeMatrix (cur : list (list Z)) (v : json) : option (list (list Z)) :=
  match v with
  | JNull => Some []
  | JArray vs => decodeElems decodeRow [] cur vs
  | _ => None
  end.

(** The folding of names by which Go matches an object key with a struct
    field: letters without their case, and the long s (U+017F) as [s]. *)
Fixpoint foldName (s : bytes) : bytes :=
  match s with
  | [] => []
  | c :: r =>
      match r with
      | d :: r' =>
          if ((valOf c =? 197) && (valOf d =? 191))%Z then "S" :: foldName r'
          else
            (if isLowerLetter c then byteOf (valOf c - 32) else c) :: foldName r
      | [] => [if isLowerLetter c then byteOf (valOf c - 32) else c]
      end
  end.

Definition matchesField (key field : bytes) : bool :=
  bytesEqb key field || bytesEqb (foldName key) (foldName field).

(** Into [struct { Characters [][]int `json:"characters"` }]. *)
Fixpoint decodeCharactersField (cur : list (list Z)) (members : list (bytes * json))
    : option (list (list Z)) :=
  match members with
  | [] => Some cur
  | (key, v) :: members' =>
      if matchesField key (B "characters") then
        match decodeMatrix cur v with
        | Some m => decodeCharactersField m members'
        | None => None
        end
      else decodeCharactersField cur members'
  end.

Definition decodeResponse (v : json) : option (list (list Z)) :=
  match v with
  | JNull => Some []
  | JObject members => decodeCharactersField [] members
  | _ => None
  end.

(** [json.Unmarshal(data, &characters)] with [characters] a nil [[][]int]. *)
Definition unmarshalMatrix (data : bytes) : option (list (list Z)) :=
  match jsonParse data with
  | Some v => decodeMatrix [] v
  | None => None
  end.

(** [json.Unmarshal(data, &response)] with [response] the zero struct. *)
Definition unmarshalResponse (data : bytes) : option (list (list Z)) :=
  match jsonParse data with
  | Some v => decodeResponse v
  | None => None
  end.

(** ** The raw-payload sniffer ([cmd/root.go]) *)

Definition looksLikeRawCharactersJSON (input : bytes) : bool :=
  let trimmed := TrimSpace input in
  if (length trimmed <? 10)%nat then false
  else if negb (hasPrefix trimmed (B "[")) || negb (hasSuffix trimmed (B "]")) then false
  else
    match unmarshalMatrix trimmed with
    | None => false
    | Some _ => true
    end.


(** ** The transport client ([internal/vestaboard/client.go]) *)

(** The library calls whose results the client only passes on:
    [json.Marshal] of the payloads built here (maps of strings and
    integers, which it cannot reject), [json.Indent] with its failure, and
    the parsing of the URL in [http.NewRequestWithContext], which gives the
    URL as [req.URL.String()] prints it. *)
Class Library : Type := {
  Marshal : json -> bytes;
  Indent : bytes -> option bytes;
  ParseURL : bytes -> option bytes
}.

Record Request : Type := mkRequest {
  reqMethod : bytes;
  reqURL : bytes;
  reqHeaders : list (bytes * bytes);
  reqBody : bytes
}.

Record Response : Type := mkResponse {
  StatusCode : Z;
  Status : bytes;
  Body : bytes
}.

(** What [httpClient.Do] and the reading of the body come to. *)
Inductive Exchange : Type :=
| NoReply (cause : bytes)
| BrokenBody (cause : bytes)
| Reply (resp : Response).

Inductive error : Type :=
| MissingAPIKey
| BuildRequestError
| SendRequestError (cause : bytes)
| ReadAPIResponseError (cause : bytes)
| ReadVBMLResponseError (cause : bytes)
| APIStatusError (status body : bytes)
| VBMLStatusError (status body : bytes)
| NoCharactersError.

Inductive result (A : Type) : Type :=
| Ok (a : A)
| Err (e : error).
Arguments Ok {A} a.
Arguments Err {A} e.

Record Client : Type := mkClient {
  baseURL : bytes;
  vbmlURL : bytes;
  apiKey : bytes;
  httpClient : Request -> Exchange;
  verbose : bool;
  logWriter : bool     (* [false] for a nil writer *)
}.

Definition defaultBaseURL : bytes := B "https://cloud.vestaboard.com".
Definition writePath : bytes := B "/".
Definition vbmlBaseURL : bytes := B "https://vbml.vestaboard.com".
Definition vbmlFormatPath : bytes := B "/compose".
Definition headerName : bytes := B "X-vestaboard-token".

Definition Option : Type := Client -> Client.

Definition WithVerboseLogging (enabled : bool) (writer : bool) : Option :=
  fun c => mkClient (baseURL c) (vbmlURL c) (apiKey c) (httpClient c)
                    enabled writer.

Definition NewClient (key : bytes) (http : Request -> Exchange)
    (options : list Option) : result Client :=
  let key := TrimSpace key in
  match key with
  | [] => Err MissingAPIKey
  | _ :: _ =>
      Ok (fold_left (fun c option => option c) options
            (mkClient defaultBaseURL vbmlBaseURL key http false false))
  end.

(** What a call leaves behind: the text written to the log writer and the
    requests handed to the HTTP client. *)
Record World : Type := mkWorld {
  logged : bytes;
  wire : list Request
}.

(** A computation that may fail, log and send. *)
Definition Eff (A : Type) : Type := World -> result A * World.

Definition ret {A : Type} (a : A) : Eff A := fun w => (Ok a, w).
Definition fail {A : Type} (e : error) : Eff A := fun w => (Err e, w).
Definition bind {A C : Type} (m : Eff A) (k : A -> Eff C) : Eff C :=
  fun w => match m w with
           | (Ok a, w') => k a w'
           | (Err e, w') => (Err e, w')
           end.

Notation "x <- m ;; k" := (bind m (fun x => k))
  (at level 61, m at next level, right associativity).
Notation "m ;; k" := (bind m (fun _ => k))
  (at level 61, right associativity).

Definition fprint (text : bytes) : Eff unit :=
  fun w => (Ok tt, mkWorld (logged w ++ text) (wire w)).

Definition doRequest (c : Client) (req : Request) : Eff Exchange :=
  fun w => (Ok (httpClient c req), mkWorld (logged w) (wire w ++ [req])).

Section Transport.
Context {lib : Library}.

Definition prettyJSON (payload : bytes) : bytes :=
  let trimmed := TrimSpace payload in
  match trimmed with
  | [] => B "<empty>"
  | _ :: _ =>
      match Indent trimmed with
      | Some pretty => pretty
      | None => trimmed
      end
  end.

Definition logHTTP (c : Client) (direction url payload : bytes)
    (statusCode : Z) : Eff unit :=
  if negb (verbose c) || negb (logWriter c) then ret tt
  else if bytesEqb direction (B "request") then
    fprint (B "request URL: " ++ url ++ ["010"]) ;;
    fprint (B "request payload:" ++ ["010"] ++ prettyJSON payload ++ ["010"])
  else
    fprint (B "response URL: " ++ url ++ ["010"]) ;;
    fprint (B "response status: " ++ formatInt statusCode ++ ["010"]) ;;
    fprint (B "response payload:" ++ ["010"] ++ prettyJSON payload ++ ["010"]).

Definition postMessage (c : Client) (payload : json) : Eff unit :=
  let body := Marshal payload in
  match ParseURL (baseURL c ++ writePath) with
  | None => fail BuildRequestError
  | Some url =>
      let req := mkRequest (B "POST") url
                   [(B "Content-Type", B "application/json");
                    (headerName, apiKey c)] body in
      logHTTP c (B "request") url body 0 ;;
      exchange <- doRequest c req ;;
      match exchange with
      | NoReply cause => fail (SendRequestError cause)
      | BrokenBody cause => fail (ReadAPIResponseError cause)
      | Reply resp =>
          logHTTP c (B "response") url (Body resp) (StatusCode resp) ;;
          if (StatusCode resp =? 409)%Z then ret tt
          else if ((StatusCode resp <? 200) || (StatusCode resp >=? 300))%Z
          then fail (APIStatusError (Status resp) (TrimSpace (Body resp)))
          else ret tt
      end
  end.

(** The JSON of a [[][]int] (a nil slice, which [json.Marshal] writes as
    [null], is not told apart from an empty one). *)
Definition matrixJSON (characters : list (list Z)) : json :=
  JArray (map (fun row => JArray (map (fun n => JNumber (formatInt n)) row))
              characters).

Definition SendText (c : Client) (text : bytes) : Eff unit :=
  let payload := JObject [(B "text", JString text)] in
  postMessage c payload.

Definition SendCharacters (c : Client) (characters : list (list Z)) : Eff unit :=
  let payload := JObject [(B "characters", matrixJSON characters)] in
  postMessage c payload.

(** The map access and the map assignment on a JSON object. *)
Fixpoint member (key : bytes) (members : list (bytes * json)) : option json :=
  match members with
  | [] => None
  | (k, v) :: rest => if bytesEqb k key then Some v else member key rest
  end.

Fixpoint setMember (key : bytes) (v : json) (members : list (bytes * json))
    : list (bytes * json) :=
  match members with
  | [] => [(key, v)]
  | (k, old) :: rest =>
      if bytesEqb k key then (k, v) :: rest
      else (k, old) :: setMember key v rest
  end.

(** The payload [FormatMessage] marshals. *)
Definition composePayload (message model align justify : bytes)
    : list (bytes * json) :=
  let payload :=
    [(B "components",
      JArray [JObject [(B "template", JString message);
                       (B "style", JObject [(B "align", JString align);
                                            (B "justify", JString justify)])]])] in
  if bytesEqb model (B "note") then
    setMember (B "style")
      (JObject [(B "height", JNumber (formatInt 3));
                (B "width", JNumber (formatInt 15))]) payload
  else payload.

(** The decoding of the body of a successful compose response: the wrapped
    shape first, then the bare array. *)
Definition decodeComposeBody (bodyBytes : bytes) : result (list (list Z)) :=
  match unmarshalResponse bodyBytes with
  | Some (row :: rows) => Ok (row :: rows)
  | _ =>
      match unmarshalMatrix bodyBytes with
      | Some (row :: rows) => Ok (row :: rows)
      | _ => Err NoCharactersError
      end
  end.

Definition FormatMessage (c : Client) (message model align justify : bytes)
    : Eff (list (list Z)) :=
  let payload := composePayload message model align justify in
  let body := Marshal (JObject payload) in
  match ParseURL (vbmlURL c ++ vbmlFormatPath) with
  | None => fail BuildRequestError
  | Some url =>
      let req := mkRequest (B "POST") url
                   [(B "Content-Type", B "application/json")] body in
      logHTTP c (B "request") url body 0 ;;
      exchange <- doRequest c req ;;
      match exchange with
      | NoReply cause => fail (SendRequestError cause)
      | BrokenBody cause => fail (ReadVBMLResponseError cause)
      | Reply resp =>
          logHTTP c (B "response") url (Body resp) (StatusCode resp) ;;
          if ((StatusCode resp <? 200) || (StatusCode resp >=? 300))%Z
          then fail (VBMLStatusError (Status resp) (TrimSpace (Body resp)))
          else
            match decodeComposeBody (Body resp) with
            | Ok characters => ret characters
            | Err e => fail e
            end
      end
  end.

(** What [postMessage] makes of an exchange. *)
Definition postOutcome (e : Exchange) : result unit :=
  match e with
  | NoReply cause => Err (SendRequestError cause)
  | BrokenBody cause => Err (ReadAPIResponseError cause)
  | Reply resp =>
      if (StatusCode resp =? 409)%Z then Ok tt
      else if ((StatusCode resp <? 200) || (StatusCode resp >=? 300))%Z
      then Err (APIStatusError (Status resp) (TrimSpace (Body resp)))
      else Ok tt
  end.

Definition postRequest (c : Client) (url : bytes) (payload : json) : Request :=
  mkRequest (B "POST") url
    [(B "Content-Type", B "application/json"); (headerName, apiKey c)]
    (Marshal payload).

(** What [FormatMessage] makes of an exchange. *)
Definition composeOutcome (e : Exchange) : result (list (list Z)) :=
  match e with
  | NoReply cause => Err (SendRequestError cause)
  | BrokenBody cause => Err (ReadVBMLResponseError cause)
  | Reply resp =>
      if ((StatusCode resp <? 200) || (StatusCode resp >=? 300))%Z
      then Err (VBMLStatusError (Status resp) (TrimSpace (Body resp)))
      else decodeComposeBody (Body resp)
  end.

Definition composeRequest (url message model align justify : bytes) : Request :=
  mkRequest (B "POST") url [(B "Content-Type", B "application/json")]
    (Marshal (JObject (composePayload message model align justify))).

(** The ways a response body gives no matrix to a decoding. *)
Definition yieldsNone (decoded : option (list (list Z))) : Prop :=
  decoded = None \/ decoded = Some [].

End Transport.


(** ** JSON texts of matrices (specification side) *)

(** An integer literal: digits, with a minus sign or none. *)
Definition isIntegerLiteral (literal : bytes) : bool :=
  match literal with
  | "-" :: (_ :: _) as digits => forallb isDigit digits
  | _ :: _ => forallb isDigit literal
  | [] => false
  end.

(** An array of arrays of integers. *)
Definition isIntegerRow (v : json) : bool :=
  match v with
  | JArray cells =>
      forallb (fun cell => match cell with
                           | JNumber literal => isIntegerLiteral literal
                           | _ => false
                           end) cells
  | _ => false
  end.

Definition isIntegerMatrix (v : json) : bool :=
  match v with
  | JArray rows => forallb isIntegerRow rows
  | _ => false
  end.

(** What [json.Unmarshal] takes for a [[][]int]: [null] is let through in
    the place of the matrix, of a row and of a cell, and a number has to be
    an integer literal of the signed 64-bit range. *)
Definition isDecodableCell (v : json) : bool :=
  match v with
  | JNull => true
  | JNumber literal =>
      match parseInt64 literal with Some _ => true | None => false end
  | _ => false
  end.

Definition isDecodableRow (v : json) : bool :=
  match v with
  | JNull => true
  | JArray cells => forallb isDecodableCell cells
  | _ => false
  end.

Definition isDecodableMatrix (v : json) : bool :=
  match v with
  | JNull => true
  | JArray rows => forallb isDecodableRow rows
  | _ => false
  end.

(** [v] is the JSON array of arrays that writes the matrix [m]. *)
Definition encodesInt (v : json) (n : Z) : Prop :=
  exists literal, v = JNumber literal /\ parseInt64 literal = Some n.

Definition encodesRow (v : json) (row : list Z) : Prop :=
  exists cells, v = JArray cells /\ Forall2 encodesInt cells row.

Definition encodesMatrix (v : json) (m : list (list Z)) : Prop :=
  exists rows, v = JArray rows /\ Forall2 encodesRow rows m.

(** ** A library for the examples

    JSON written without white space, strings between quotes as they are;
    no indenting; every URL taken as it is written. *)

Definition quoted (s : bytes) : bytes := ["034"] ++ s ++ ["034"].

(** The double quote is written ['] in the examples. *)
Definition Q (s : string) : bytes :=
  map (fun c => if Ascii.eqb c "'" then "034" else c) (B s).

Fixpoint writeJSON (v : json) : bytes :=
  match v with
  | JNull => B "null"
  | JBool true => B "true"
  | JBool false => B "false"
  | JNumber literal => literal
  | JString s => quoted s
  | JArray elems =>
      B "[" ++
      (fix write (l : list json) : bytes :=
         match l with
         | [] => []
         | [x] => writeJSON x
         | x :: r => writeJSON x ++ B "," ++ write r
         end) elems
      ++ B "]"
  | JObject members =>
      B "{" ++
      (fix write (l : list (bytes * json)) : bytes :=
         match l with
         | [] => []
         | [(k, x)] => quoted k ++ B ":" ++ writeJSON x
         | (k, x) :: r => quoted k ++ B ":" ++ writeJSON x ++ B "," ++ write r
         end) members
      ++ B "}"
  end.

Definition sampleLibrary : Library :=
  {| Marshal := writeJSON; Indent := fun _ => None; ParseURL := fun u => Some u |}.

(** A server that answers every request the same way. *)
Definition answering (code : Z) (status body : bytes) : Request -> Exchange :=
  fun _ => Reply (mkResponse code status body).

Definition sampleClient (http : Request -> Exchange) : Client :=
  mkClient defaultBaseURL vbmlBaseURL (B "abc123") http false false.


(** ** The commands ([cmd/root.go]) *)

(** A result of the command layer: a value or an error. *)
Inductive res (E A : Type) : Type :=
| Done (a : A)
| Failed (e : E).
Arguments Done {E A} a.
Arguments Failed {E A} e.

(** What [parseCharacters] fails with: the error of [json.Unmarshal], or
    its own "empty array". *)
Inductive parseError : Type :=
| NotAMatrix
| EmptyArray.

Inductive layoutError : Type :=
| DecodeAPIResponseError
| LayoutNotFound.

Inductive cmdError : Type :=
| InvalidModel (value : bytes)
| InvalidAlign (value : bytes)
| InvalidJustify (value : bytes)
| InvalidTransitionType (value : bytes)
| InvalidTransitionSpeed (value : bytes)
| RawInputError (cause : parseError)
| MissingArgument (argName : bytes)
| ReadInputError
| AcceptsArgs (n received : nat)
| AcceptsAtMostArgs (n received : nat)
| WriteOutputError
| ClientError (e : error).

Definition envVestaboardModel : bytes := B "VESTABOARD_MODEL".
Definition envVestaboardToken : bytes := B "VESTABOARD_TOKEN".

(** [getenv] is [os.Getenv]: the empty string for a variable that is not
    set. *)
Definition resolveModel (getenv : bytes -> bytes) (value : bytes)
    : res cmdError bytes :=
  let model := ToLower (TrimSpace value) in
  let model :=
    match model with
    | [] => ToLower (TrimSpace (getenv envVestaboardModel))
    | _ :: _ => model
    end in
  let model := match model with [] => B "flagship" | _ :: _ => model end in
  if bytesEqb model (B "flagship") || bytesEqb model (B "note")
  then Done model
  else Failed (InvalidModel value).

Definition resolveAlign (value : bytes) : res cmdError bytes :=
  let align := ToLower (TrimSpace value) in
  let align := match align with [] => B "center" | _ :: _ => align end in
  if bytesEqb align (B "top") || bytesEqb align (B "center")
     || bytesEqb align (B "bottom")
  then Done align
  else Failed (InvalidAlign value).

Definition resolveJustify (value : bytes) : res cmdError bytes :=
  let justify := ToLower (TrimSpace value) in
  let justify := match justify with [] => B "center" | _ :: _ => justify end in
  if bytesEqb justify (B "left") || bytesEqb justify (B "center")
     || bytesEqb justify (B "right") || bytesEqb justify (B "justified")
  then Done justify
  else Failed (InvalidJustify value).

Definition resolveTransitionType (value : bytes) : res cmdError bytes :=
  let v := ToLower (TrimSpace value) in
  if bytesEqb v (B "classic") || bytesEqb v (B "wave")
     || bytesEqb v (B "drift") || bytesEqb v (B "curtain")
  then Done v
  else Failed (InvalidTransitionType value).

Definition resolveTransitionSpeed (value : bytes) : res cmdError bytes :=
  let v := ToLower (TrimSpace value) in
  if bytesEqb v (B "fast") then Done (B "fast")
  else if bytesEqb v (B "gentle") then Done (B "gentle")
  else Failed (InvalidTransitionSpeed value).

Definition parseCharacters (value : bytes) : res parseError (list (list Z)) :=
  match unmarshalMatrix value with
  | None => Failed NotAMatrix
  | Some [] => Failed EmptyArray
  | Some (row :: rows) => Done (row :: rows)
  end.

(** *** The layout of the board state

    [json.Unmarshal] into the struct of [extractLayout]: an object member
    is stored when its key matches the field, [null] changes nothing, any
    other JSON value in the place of the struct or of the string fails. *)

Definition decodeString (cur : bytes) (v : json) : option bytes :=
  match v with
  | JNull => Some cur
  | JString s => Some s
  | _ => None
  end.

Fixpoint decodeLayoutField (cur : bytes) (members : list (bytes * json))
    : option bytes :=
  match members with
  | [] => Some cur
  | (key, v) :: members' =>
      if matchesField key (B "layout") then
        match decodeString cur v with
        | Some s => decodeLayoutField s members'
        | None => None
        end
      else decodeLayoutField cur members'
  end.

Definition decodeCurrentMessage (cur : bytes) (v : json) : option bytes :=
  match v with
  | JNull => Some cur
  | JObject members => decodeLayoutField cur members
  | _ => None
  end.

Fixpoint decodeCurrentMessageField (cur : bytes) (members : list (bytes * json))
    : option bytes :=
  match members with
  | [] => Some cur
  | (key, v) :: members' =>
      if matchesField key (B "currentMessage") then
        match decodeCurrentMessage cur v with
        | Some s => decodeCurrentMessageField s members'
        | None => None
        end
      else decodeCurrentMessageField cur members'
  end.

(** The field [payload.CurrentMessage.Layout] after [json.Unmarshal]. *)
Definition unmarshalLayout (stateJSON : bytes) : option bytes :=
  match jsonParse stateJSON with
  | Some JNull => Some []
  | Some (JObject members) => decodeCurrentMessageField [] members
  | _ => None
  end.

Definition extractLayout (stateJSON : bytes) : res layoutError bytes :=
  match unmarshalLayout stateJSON with
  | None => Failed DecodeAPIResponseError
  | Some [] => Failed LayoutNotFound
  | Some (c :: layout) => Done (c :: layout)
  end.

(** *** Running a command *)

Record options : Type := mkOptions {
  optModel : bytes;
  optAlign : bytes;
  optJustify : bytes;
  optTransitionType : bytes;
  optTransitionSpeed : bytes;
  optVerbose : bool
}.

(** The standard input: whether it is a terminal, and what reading it to
    the end gives ([None] when the read fails). *)
Record Stdin : Type := mkStdin {
  isTerminal : bool;
  contents : option bytes
}.

(** What a run of the program finds around it: the environment, the
    standard input, the network behind the HTTP client, the help text
    cobra prints for the command, and whether the standard output takes
    what is written to it. *)
Record Process : Type := mkProcess {
  getenv : bytes -> bytes;
  stdin : Stdin;
  network : Request -> Exchange;
  helpText : bytes;
  stdoutWritable : bool
}.

(** What a run leaves behind: the log and the requests of the client (the
    log writer is the standard error), and the standard output. *)
Record Console : Type := mkConsole {
  world : World;
  stdout : bytes
}.

Definition Cmd (A : Type) : Type := Console -> res cmdError A * Console.

Definition cmdRet {A : Type} (a : A) : Cmd A := fun k => (Done a, k).
Definition cmdFail {A : Type} (e : cmdError) : Cmd A := fun k => (Failed e, k).
Definition cmdBind {A C : Type} (m : Cmd A) (f : A -> Cmd C) : Cmd C :=
  fun k => match m k with
           | (Done a, k') => f a k'
           | (Failed e, k') => (Failed e, k')
           end.

(** A call of the client inside a command. *)
Definition callClient {A : Type} (m : Eff A) : Cmd A :=
  fun k => match m (world k) with
           | (Ok a, w') => (Done a, mkConsole w' (stdout k))
           | (Err e, w') => (Failed (ClientError e), mkConsole w' (stdout k))
           end.

Section Commands.
Context {lib : Library}.
Variable p : Process.

(** [cmd.Help()], whose own failure is ignored. *)
Definition printHelp : Cmd unit :=
  fun k => (Done tt,
            if stdoutWritable p
            then mkConsole (world k) (stdout k ++ helpText p)
            else k).

Definition usageError {A : Type} (err : cmdError) : Cmd A :=
  cmdBind printHelp (fun _ => cmdFail err).

(** [fmt.Fprintln(stdout, text)]. *)
Definition println (text : bytes) : Cmd unit :=
  fun k => if stdoutWritable p
           then (Done tt, mkConsole (world k) (stdout k ++ text ++ ["010"]))
           else (Failed WriteOutputError, k).

Definition exactArgsWithHelp (n : nat) (args : list bytes) : Cmd unit :=
  if Nat.eqb (length args) n then cmdRet tt
  else usageError (AcceptsArgs n (length args)).

Definition maxArgsWithHelp (n : nat) (args : list bytes) : Cmd unit :=
  if Nat.leb (length args) n then cmdRet tt
  else usageError (AcceptsAtMostArgs n (length args)).

(** The standard error, a writer that is there, takes the log. *)
Definition buildClient (opts : options) : result Client :=
  let token := TrimSpace (getenv p envVestaboardToken) in
  NewClient token (network p) [WithVerboseLogging (optVerbose opts) true].

Definition resolveValue (value : bytes) : option bytes :=
  if negb (bytesEqb value (B "-")) then Some value
  else
    match contents (stdin p) with
    | None => None
    | Some data => Some (TrimSpace data)
    end.

Definition resolveCommandInput (args : list bytes) (argName : bytes) : Cmd bytes :=
  match args with
  | [arg] =>
      match resolveValue arg with
      | None => cmdFail ReadInputError
      | Some value => cmdRet value
      end
  | _ =>
      if isTerminal (stdin p) then usageError (MissingArgument argName)
      else
        match contents (stdin p) with
        | None => cmdFail ReadInputError
        | Some data => cmdRet (TrimSpace data)
        end
  end.

Definition sendRawResolved (client : Client) (resolved : bytes) : Cmd unit :=
  match parseCharacters resolved with
  | Failed err => usageError (RawInputError err)
  | Done characters => callClient (SendCharacters client characters)
  end.

Definition runSendRaw (opts : options) (args : list bytes) : Cmd unit :=
  match buildClient opts with
  | Err err => cmdFail (ClientError err)
  | Ok client =>
      cmdBind (resolveCommandInput args (B "characters-json"))
        (fun resolved => sendRawResolved client resolved)
  end.

Definition runSend (opts : options) (args : list bytes) (formatOnly : bool)
    : Cmd unit :=
  match buildClient opts with
  | Err err => cmdFail (ClientError err)
  | Ok client =>
      cmdBind (resolveCommandInput args (B "message")) (fun resolved =>
      if looksLikeRawCharactersJSON resolved
      then sendRawResolved client resolved
      else
        match resolveModel (getenv p) (optModel opts) with
        | Failed err => usageError err
        | Done model =>
        match resolveAlign (optAlign opts) with
        | Failed err => usageError err
        | Done align =>
        match resolveJustify (optJustify opts) with
        | Failed err => usageError err
        | Done justify =>
            let resolved := decodeEscapes resolved in
            let resolved := substituteTemplateCharacterAliases resolved in
            cmdBind (callClient (FormatMessage client resolved model align justify))
              (fun characters =>
               if formatOnly
               then println (Marshal (matrixJSON characters))
               else callClient (SendCharacters client characters))
        end end end)
  end.

(** The commands as cobra runs them: the check of the arguments, then
    [RunE]. *)
Definition sendRawCmd (opts : options) (args : list bytes) : Cmd unit :=
  cmdBind (maxArgsWithHelp 1 args) (fun _ => runSendRaw opts args).

Definition sendCmd (opts : options) (formatFlag : bool) (args : list bytes)
    : Cmd unit :=
  cmdBind (maxArgsWithHelp 1 args) (fun _ => runSend opts args formatFlag).

Definition formatCmd (opts : options) (args : list bytes) : Cmd unit :=
  cmdBind (exactArgsWithHelp 1 args) (fun _ => runSend opts args true).

Definition clearCmd (opts : options) (args : list bytes) : Cmd unit :=
  cmdBind (exactArgsWithHelp 0 args) (fun _ => runSend opts [[]] false).

End Commands.

(** ** Auxiliary notions of the proofs *)

(** What the resolver emits between braces stays as it is when resolved
    again: checked on the codes of the table. *)
Definition emitsStable (body : bytes) : bool :=
  bytesEqb (rewriteTemplateToken body) (B "{" ++ body ++ B "}")
  && bytesEqb (TrimSpace body) body
  && negb (existsb (Ascii.eqb "}") body)
  && negb (hasPrefix body (B "{")).

(** A trimmed string: no white space at either end. *)
Definition trimmed (s : bytes) : Prop :=
  trimLeft s = s /\ trimLeft (rev s) = rev s.

Definition normByte (c : ascii) : ascii := foldSeparator (toLowerByte c).

Definition entryOk (e : bytes * Z) : bool :=
  keyShape (fst e) &&
  match aliasLookup templateCharacterAliases (fst e) with
  | Some v => Z.eqb v (snd e)
  | None => false
  end.

(** Facts about single bytes, by enumeration of the byte. *)
Ltac by_byte c :=
  destruct c as [[] [] [] [] [] [] [] []]; vm_compute; intuition congruence.

Definition isSome {A : Type} (o : option A) : bool :=
  match o with Some _ => true | None => false end.

(** The scanner is inside a text that started with an opening bracket:
    the outermost thing open is an array, or that array has been closed and
    is the value of the text. *)
Definition arrayAtBottom (stk : list frame) : Prop :=
  exists above done, stk = above ++ [FArray done].

Definition inArrayText (s : scanner) : Prop :=
  s = scanError
  \/ arrayAtBottom (sstack s)
  \/ (smode s = MAfter /\ sstack s = [] /\ exists elems, sresult s = Some (JArray elems)).


(** A byte that stands for itself in a double-quoted literal. *)
Definition plainByte (c : ascii) : bool :=
  isAscii c && negb (Ascii.eqb c "034") && negb (Ascii.eqb c "010")
  && negb (Ascii.eqb c "\").


(** The values of a Go [int] (64 bits). *)
Definition isInt64 (n : Z) : bool := ((- 2 ^ 63 <=? n) && (n <=? 2 ^ 63 - 1))%Z.

(** The errors a command returns after printing its help text. *)
Definition isUsageError (e : cmdError) : bool :=
  match e with
  | InvalidModel _ | InvalidAlign _ | InvalidJustify _
  | InvalidTransitionType _ | InvalidTransitionSpeed _
  | RawInputError _ | MissingArgument _
  | AcceptsArgs _ _ | AcceptsAtMostArgs _ _ => true
  | ReadInputError | WriteOutputError | ClientError _ => false
  end.



(** One of the names compared with has been recognised; [eq] is the
    correctness of the comparison. *)
Ltac accepted_name eq H :=
  repeat match type of H with
         | context [bytesEqb ?x ?k] =>
             let E := fresh "E" in
             destruct (bytesEqb x k) eqn:E;
             [apply eq in E|]
         end;
  cbn [orb] in H.

(** The step of an induction over a text being unquoted: [step] is the
    fact for the rest of the text, [H] what the text read so far gave. *)
Ltac emit_step step H :=
  match type of H with
  | match unquoteBody 0 ?r with Some r0 => Some (?o :: r0) | None => None end = _ =>
      apply (step [o] r)
  | _ => apply step
  end.

(** A process for the examples: the two variables of the environment, a
    standard output that takes what is written, a short help text. *)
Definition sampleProcess (token model : bytes) (input : Stdin)
    (http : Request -> Exchange) : Process :=
  mkProcess (fun name => if bytesEqb name envVestaboardToken then token
                         else if bytesEqb name envVestaboardModel then model
                         else [])
            input http (B "Usage: vbcli send [message|-]") true.

Definition sampleOptions (model : bytes) : options :=
  mkOptions model (B "center") (B "center") [] [] false.

Definition emptyConsole : Console := mkConsole (mkWorld [] []) [].

Definition noInput : Stdin := mkStdin true None.


(* ================================================================== *)
(** * Properties *)

(** ** The scanner and its suffix form *)

Lemma skipn_cons_nth (s : bytes) (i : nat) :
  i < length s -> skipn i s = nth i s "000" :: skipn (i + 1) s.
Proof.
  revert i; induction s as [|c s IH]; intros [|i] H; simpl in *; try lia.
  - reflexivity.
  - apply IH; lia.
Qed.

Lemma scanLoop_scanFrom fuel : forall input i out,
  scanLoop fuel input i out = out ++ scanFrom fuel (skipn i input).
Proof.
  induction fuel as [|fuel IH]; intros input i out; cbn [scanLoop scanFrom].
  - now rewrite app_nil_r.
  - destruct (Nat.ltb_spec i (length input)) as [Hlt|Hge].
    + pose proof (skipn_cons_nth input i Hlt) as E.
      replace (skipn (i + 2) input) with (skipn 2 (skipn i input))
        by (rewrite skipn_skipn; f_equal; lia).
      destruct (skipn i input) as [|c s'] eqn:Es; [discriminate|].
      injection E as Ec Es'. rewrite <- Ec.
      destruct (hasPrefix (c :: s') (B "{{")).
      * destruct (index (skipn 2 (c :: s')) (B "}}")) as [e|]; [|reflexivity].
        rewrite IH. unfold slice.
        replace (e + (i + 4) - i) with (e + 4) by lia.
        replace (e + (i + 4)) with (e + 4 + i) by lia.
        rewrite <- (skipn_skipn (e + 4) i), Es, <- app_assoc. reflexivity.
      * destruct (Ascii.eqb c "{"); cbn [negb].
        -- rewrite <- Es'.
           destruct (indexByte s' "}") as [e|]; [|reflexivity].
           rewrite IH. unfold slice.
           replace (e + (i + 1) - (i + 1)) with e by lia.
           replace (e + (i + 1) + 1) with (e + 1 + (i + 1)) by lia.
           rewrite <- (skipn_skipn (e + 1) (i + 1)), <- Es', <- app_assoc. reflexivity.
        -- rewrite IH, <- Es', <- app_assoc. reflexivity.
    + rewrite skipn_all2 by lia. now rewrite app_nil_r.
Qed.

Theorem substitute_scan (input : bytes) :
  substituteTemplateCharacterAliases input = scan input.
Proof.
  unfold substituteTemplateCharacterAliases, scan.
  now rewrite scanLoop_scanFrom.
Qed.

Lemma scanFrom_fuel n : forall m s,
  length s <= n -> length s <= m -> scanFrom n s = scanFrom m s.
Proof.
  induction n as [|n IH]; intros m s Hn Hm.
  - destruct s; [|simpl in Hn; lia]. now destruct m.
  - destruct m as [|m].
    + destruct s; [reflexivity|simpl in Hm; lia].
    + cbn [scanFrom]. destruct s as [|c s']; [reflexivity|].
      simpl in Hn, Hm.
      destruct (hasPrefix (c :: s') (B "{{")).
      * destruct (index (skipn 2 (c :: s')) (B "}}")) as [e|]; [|reflexivity].
        f_equal. apply IH; rewrite length_skipn; cbn [length]; lia.
      * destruct (negb (Ascii.eqb c "{")).
        -- f_equal. apply IH; lia.
        -- destruct (indexByte s' "}") as [e|]; [|reflexivity].
           f_equal. apply IH; rewrite length_skipn; lia.
Qed.

(** The loop is not cut short: with [length input] iterations or more it
    gives the same output. *)
Lemma scanLoop_fuel (input : bytes) (fuel : nat) :
  length input <= fuel ->
  scanLoop fuel input 0 [] = substituteTemplateCharacterAliases input.
Proof.
  intros H. unfold substituteTemplateCharacterAliases.
  rewrite !scanLoop_scanFrom. cbn [skipn app].
  now apply scanFrom_fuel.
Qed.

Lemma scanFrom_S (n : nat) (s : bytes) :
  scanFrom (S n) s =
  match s with
  | [] => []
  | c :: s' =>
      if hasPrefix s (B "{{") then
        match index (skipn 2 s) (B "}}") with
        | None => s
        | Some e => firstn (e + 4) s ++ scanFrom n (skipn (e + 4) s)
        end
      else if negb (Ascii.eqb c "{") then c :: scanFrom n s'
      else
        match indexByte s' "}" with
        | None => s
        | Some e =>
            rewriteTemplateToken (TrimSpace (firstn e s'))
              ++ scanFrom n (skipn (e + 1) s')
        end
  end.
Proof. reflexivity. Qed.

Lemma scan_cons (c : ascii) (s : bytes) :
  scan (c :: s) = scanFrom (S (length s)) (c :: s).
Proof. reflexivity. Qed.

Lemma scan_nil : scan [] = [].
Proof. reflexivity. Qed.

(** The scanner at [{{] with no [}}] ahead copies the rest. *)
Lemma scan_expr_open (t : bytes) :
  index t (B "}}") = None -> scan ("{" :: "{" :: t) = "{" :: "{" :: t.
Proof.
  intros H. rewrite scan_cons, scanFrom_S.
  change (hasPrefix ("{" :: "{" :: t) (B "{{")) with true.
  change (skipn 2 ("{" :: "{" :: t)) with t. now rewrite H.
Qed.

(** The scanner at [{{] with the first [}}] at offset [e] copies the span
    and goes on behind it. *)
Lemma scan_expr_closed (t : bytes) (e : nat) :
  index t (B "}}") = Some e ->
  scan ("{" :: "{" :: t) = "{" :: "{" :: firstn (e + 2) t ++ scan (skipn (e + 2) t).
Proof.
  intros H. rewrite scan_cons, scanFrom_S.
  change (hasPrefix ("{" :: "{" :: t) (B "{{")) with true.
  change (skipn 2 ("{" :: "{" :: t)) with t. rewrite H.
  replace (e + 4) with (S (S (e + 2))) by lia. cbn [firstn skipn app].
  do 3 f_equal. apply scanFrom_fuel; rewrite ?length_skipn; cbn [length]; lia.
Qed.

(** A byte other than [{] is copied. *)
Lemma scan_plain (c : ascii) (s : bytes) :
  c <> "{" -> scan (c :: s) = c :: scan s.
Proof.
  intros H. rewrite scan_cons, scanFrom_S.
  apply Ascii.eqb_neq in H.
  replace (hasPrefix (c :: s) (B "{{")) with false by (simpl; now rewrite H).
  rewrite H. reflexivity.
Qed.

(** A single [{] with no [}] ahead copies the rest. *)
Lemma scan_token_open (s : bytes) :
  hasPrefix s (B "{") = false -> indexByte s "}" = None ->
  scan ("{" :: s) = "{" :: s.
Proof.
  intros Hp H. rewrite scan_cons, scanFrom_S.
  replace (hasPrefix ("{" :: s) (B "{{")) with false
    by (destruct s; simpl in *; [reflexivity|now rewrite Hp]).
  cbn [Ascii.eqb Bool.eqb negb andb]. now rewrite H.
Qed.

(** A single [{] with the next [}] at offset [e] is rewritten as a token. *)
Lemma scan_token_closed (s : bytes) (e : nat) :
  hasPrefix s (B "{") = false -> indexByte s "}" = Some e ->
  scan ("{" :: s) =
    rewriteTemplateToken (TrimSpace (firstn e s)) ++ scan (skipn (e + 1) s).
Proof.
  intros Hp H. rewrite scan_cons, scanFrom_S.
  replace (hasPrefix ("{" :: s) (B "{{")) with false
    by (destruct s; simpl in *; [reflexivity|now rewrite Hp]).
  cbn [Ascii.eqb Bool.eqb negb andb]. rewrite H.
  f_equal. apply scanFrom_fuel; rewrite ?length_skipn; lia.
Qed.

(** ** Searching in byte strings *)

Lemma indexByte_None (s : bytes) (c : ascii) :
  indexByte s c = None <-> ~ In c s.
Proof.
  induction s as [|x s IH]; simpl.
  - tauto.
  - destruct (Ascii.eqb_spec x c) as [->|Hne].
    + split; [discriminate|tauto].
    + destruct (indexByte s c); simpl.
      * split; [discriminate|]. intros H. exfalso.
        assert (Hn : ~ In c s) by tauto.
        apply IH in Hn. discriminate.
      * split; [|reflexivity]. intros _ [H|H]; [congruence|].
        now apply (proj1 IH).
Qed.

Lemma indexByte_app (a r : bytes) (c : ascii) :
  ~ In c a -> indexByte (a ++ c :: r) c = Some (length a).
Proof.
  induction a as [|x a IH]; simpl; intros H.
  - now rewrite Ascii.eqb_refl.
  - destruct (Ascii.eqb_spec x c) as [->|Hne]; [tauto|].
    rewrite IH by tauto. reflexivity.
Qed.

Lemma indexByte_Some (s : bytes) (c : ascii) (e : nat) :
  indexByte s c = Some e ->
  s = firstn e s ++ c :: skipn (e + 1) s /\ ~ In c (firstn e s).
Proof.
  revert e; induction s as [|x s IH]; simpl; intros e H; [discriminate|].
  destruct (Ascii.eqb_spec x c) as [->|Hne].
  - injection H as <-. simpl. tauto.
  - destruct (indexByte s c) as [e'|]; [|discriminate].
    injection H as <-. destruct (IH e' eq_refl) as [Hs Hn]. simpl.
    split; [now rewrite <- Hs|]. intros [?|?]; [congruence|tauto].
Qed.

Lemma hasPrefix_app (p r : bytes) : hasPrefix (p ++ r) p = true.
Proof.
  induction p as [|c p IH]; simpl; [reflexivity|].
  now rewrite Ascii.eqb_refl, IH.
Qed.

Lemma hasPrefix_true (s p : bytes) :
  hasPrefix s p = true -> s = p ++ skipn (length p) s.
Proof.
  revert s; induction p as [|c p IH]; intros s H; simpl in *; [reflexivity|].
  destruct s as [|x s]; [discriminate|].
  apply andb_true_iff in H as [Hc Hp].
  apply Ascii.eqb_eq in Hc as ->. f_equal. now apply IH.
Qed.

Lemma hasPrefix_length (s p : bytes) :
  hasPrefix s p = true -> length p <= length s.
Proof.
  intros H. rewrite (hasPrefix_true s p H), length_app. lia.
Qed.

Lemma hasPrefix_firstn_app (s p r : bytes) (k : nat) :
  length p <= k -> k <= length s ->
  hasPrefix (firstn k s ++ r) p = hasPrefix s p.
Proof.
  revert s k; induction p as [|c p IH]; intros s k Hp Hk; [reflexivity|].
  simpl in Hp. destruct k as [|k]; [lia|].
  destruct s as [|x s]; [simpl in Hk; lia|].
  simpl in *. f_equal. apply IH; lia.
Qed.

Lemma index_length (s sub : bytes) (e : nat) :
  index s sub = Some e -> e + length sub <= length s.
Proof.
  revert e; induction s as [|x s IH]; intros e H.
  - simpl in H. destruct (hasPrefix [] sub) eqn:Hp; [|discriminate].
    injection H as <-. now apply hasPrefix_length in Hp.
  - cbn [index] in H. destruct (hasPrefix (x :: s) sub) eqn:Hp.
    + injection H as <-. now apply hasPrefix_length in Hp.
    + destruct (index s sub) as [e'|]; [|discriminate].
      injection H as <-. specialize (IH e' eq_refl). simpl. lia.
Qed.

Lemma index_split (s sub : bytes) (e : nat) :
  index s sub = Some e ->
  s = firstn e s ++ sub ++ skipn (e + length sub) s.
Proof.
  revert e; induction s as [|x s IH]; intros e H.
  - simpl in H. destruct (hasPrefix [] sub) eqn:Hp; [|discriminate].
    injection H as <-. now apply hasPrefix_true in Hp.
  - cbn [index] in H. destruct (hasPrefix (x :: s) sub) eqn:Hp.
    + injection H as <-. now apply hasPrefix_true in Hp.
    + destruct (index s sub) as [e'|]; [|discriminate].
      injection H as <-. simpl. f_equal. now apply IH.
Qed.

(** The first occurrence is decided by the text up to its end. *)
Lemma index_firstn_app (s sub r : bytes) (e : nat) :
  index s sub = Some e ->
  index (firstn (e + length sub) s ++ r) sub = Some e.
Proof.
  revert e; induction s as [|x s IH]; intros e H.
  - simpl in H. destruct (hasPrefix [] sub) eqn:Hp; [|discriminate].
    injection H as <-. destruct sub; [|discriminate]. now destruct r.
  - pose proof (index_length _ _ _ H) as Hlen.
    cbn [index] in H. destruct (hasPrefix (x :: s) sub) eqn:Hp.
    + injection H as <-. simpl "+".
      assert (Hq : hasPrefix (firstn (length sub) (x :: s) ++ r) sub = true).
      { pose proof (hasPrefix_length _ _ Hp).
        rewrite hasPrefix_firstn_app by lia. exact Hp. }
      destruct (firstn (length sub) (x :: s) ++ r) as [|y l];
        cbn [index]; now rewrite Hq.
    + destruct (index s sub) as [e'|] eqn:Hi; [|discriminate].
      injection H as <-. cbn [plus firstn app index].
      replace (hasPrefix (x :: firstn (e' + length sub) s ++ r) sub)
        with (hasPrefix (x :: s) sub).
      * rewrite Hp, (IH e' eq_refl). reflexivity.
      * symmetry.
        apply (hasPrefix_firstn_app (x :: s) sub r (S (e' + length sub)));
          simpl in *; lia.
Qed.

(** ** The alias token resolver *)

Lemma scan_plain_prefix (pre x : bytes) :
  ~ In "{" pre -> scan (pre ++ x) = pre ++ scan x.
Proof.
  induction pre as [|c pre IH]; simpl; intros H; [reflexivity|].
  rewrite scan_plain by (intros ->; tauto). f_equal. apply IH; tauto.
Qed.

Lemma rewrite_unknown (token : bytes) :
  Atoi token = None ->
  aliasLookup templateCharacterAliases (canonicalAlias token) = None ->
  rewriteTemplateToken token = B "{" ++ token ++ B "}".
Proof.
  intros Ha Hl. unfold rewriteTemplateToken.
  destruct token; [reflexivity|]. now rewrite Ha, Hl.
Qed.

Lemma scan_token (interior rest : bytes) :
  ~ In "}" interior -> hasPrefix interior (B "{") = false ->
  scan (B "{" ++ interior ++ B "}" ++ rest) =
    rewriteTemplateToken (TrimSpace interior) ++ scan rest.
Proof.
  intros Hin Hp. cbn [B list_ascii_of_string app].
  rewrite (scan_token_closed _ (length interior)).
  - rewrite firstn_app, Nat.sub_diag, firstn_all, app_nil_r.
    rewrite skipn_app, skipn_all2 by lia.
    replace (length interior + 1 - length interior) with 1 by lia.
    reflexivity.
  - destruct interior as [|c l]; [reflexivity|exact Hp].
  - now apply indexByte_app.
Qed.

(** The first closing pair behind a span that is closed. *)
Lemma index_span (interior rest : bytes) :
  index (interior ++ B "}}") (B "}}") = Some (length interior) ->
  index (interior ++ B "}}" ++ rest) (B "}}") = Some (length interior).
Proof.
  intros H. pose proof (index_firstn_app _ _ rest _ H) as Hi.
  rewrite firstn_all2 in Hi by (rewrite length_app; simpl; lia).
  now rewrite <- app_assoc in Hi.
Qed.

Lemma scan_span (interior rest : bytes) :
  index (interior ++ B "}}") (B "}}") = Some (length interior) ->
  scan (B "{{" ++ interior ++ B "}}" ++ rest)
  = B "{{" ++ interior ++ B "}}" ++ scan rest.
Proof.
  intros H.
  change (B "{{" ++ interior ++ B "}}" ++ rest)
    with ("{" :: "{" :: (interior ++ B "}}" ++ rest)).
  rewrite (scan_expr_closed _ _ (index_span interior rest H)).
  rewrite firstn_app, firstn_all2 by lia.
  replace (length interior + 2 - length interior) with 2 by lia.
  rewrite skipn_app, skipn_all2 by lia.
  replace (length interior + 2 - length interior) with 2 by lia.
  cbn [B list_ascii_of_string firstn skipn app]. now rewrite <- app_assoc.
Qed.

(** Behind a scanned prefix the scanner starts afresh. *)
Lemma scan_scannedPrefix (pre : bytes) :
  scannedPrefix pre -> forall x, scan (pre ++ x) = scan pre ++ scan x.
Proof.
  assert (Hstep : forall p piece : bytes,
            (forall x, scan (p ++ x) = scan p ++ scan x) ->
            (forall x, scan (piece ++ x) = scan piece ++ scan x) ->
            forall x, scan ((p ++ piece) ++ x) = scan (p ++ piece) ++ scan x).
  { intros p piece Hp Hpiece x.
    now rewrite <- (app_assoc p), !Hp, Hpiece, <- app_assoc. }
  induction 1 as [|pre c _ IH Hc|pre interior _ IH Hin Hp|pre interior _ IH Hi];
    [reflexivity|apply Hstep; [exact IH|]; intros x ..].
  - cbn [app]. now rewrite !scan_plain, scan_nil by assumption.
  - replace ((B "{" ++ interior ++ B "}") ++ x)
      with (B "{" ++ interior ++ B "}" ++ x) by now rewrite <- !app_assoc.
    replace (scan (B "{" ++ interior ++ B "}"))
      with (scan (B "{" ++ interior ++ B "}" ++ [])) by now rewrite app_nil_r.
    rewrite !scan_token, scan_nil, app_nil_r by assumption. reflexivity.
  - replace ((B "{{" ++ interior ++ B "}}") ++ x)
      with (B "{{" ++ interior ++ B "}}" ++ x) by now rewrite <- !app_assoc.
    replace (scan (B "{{" ++ interior ++ B "}}"))
      with (scan (B "{{" ++ interior ++ B "}}" ++ [])) by now rewrite app_nil_r.
    rewrite !scan_span, scan_nil by assumption.
    now rewrite <- !app_assoc.
Qed.

Lemma scannedPrefix_app_plain (pre x : bytes) :
  scannedPrefix pre -> ~ In "{" x -> scannedPrefix (pre ++ x).
Proof.
  intros Hpre. induction x as [|c x IH] using rev_ind; intros H.
  - now rewrite app_nil_r.
  - rewrite app_assoc. apply scanned_plain.
    + apply IH. intros Hin. apply H, in_or_app. now left.
    + intros ->. apply H, in_or_app. right. now left.
Qed.

(** C1, as the code has it: a single-brace token the scanner meets, that
    is neither an integer nor an alias, is emitted with its interior
    trimmed of surrounding white space, and otherwise unchanged. *)
Theorem unknown_token_emitted_trimmed (pre interior rest : bytes) :
  asciiOnly (pre ++ B "{" ++ interior ++ B "}" ++ rest) ->
  scannedPrefix pre ->
  ~ In "}" interior ->
  hasPrefix interior (B "{") = false ->
  Atoi (TrimSpace interior) = None ->
  aliasLookup templateCharacterAliases
    (canonicalAlias (TrimSpace interior)) = None ->
  substituteTemplateCharacterAliases (pre ++ B "{" ++ interior ++ B "}" ++ rest)
  = substituteTemplateCharacterAliases pre
      ++ B "{" ++ TrimSpace interior ++ B "}"
      ++ substituteTemplateCharacterAliases rest.
Proof.
  intros _ Hpre Hin Hp Ha Hl.
  rewrite !substitute_scan, scan_scannedPrefix, scan_token by assumption.
  rewrite rewrite_unknown by assumption.
  now rewrite <- !app_assoc.
Qed.

Lemma scanned_green_say : scannedPrefix (B "{green} say ").
Proof.
  change (B "{green} say ")
    with (([] ++ B "{" ++ B "green" ++ B "}") ++ B " say ").
  apply scannedPrefix_app_plain.
  - apply scanned_token; [constructor| |reflexivity].
    intros H; repeat (destruct H as [H|H]; [discriminate H|]); exact H.
  - intros H; repeat (destruct H as [H|H]; [discriminate H|]); exact H.
Qed.

Lemma unknown_token_emitted_trimmed_witness :
  substituteTemplateCharacterAliases (B "{green} say {  not-known  } {green}")
  = B "{66} say {not-known} {66}".
Proof.
  apply (unknown_token_emitted_trimmed
           (B "{green} say ") (B "  not-known  ") (B " {green}"));
    try reflexivity.
  - exact scanned_green_say.
  - intros H; repeat (destruct H as [H|H]; [discriminate H|]); exact H.
Defined.

(** C1 as stated fails: the white space around the interior of an unknown
    token is dropped. *)
Lemma unknown_token_untrimmed_counterexample :
  Atoi (TrimSpace (B " foo ")) = None /\
  aliasLookup templateCharacterAliases
    (canonicalAlias (TrimSpace (B " foo "))) = None /\
  substituteTemplateCharacterAliases (B "{ foo }") = B "{foo}" /\
  substituteTemplateCharacterAliases (B "{ foo }") <> B "{ foo }".
Proof. repeat split; try reflexivity. discriminate. Qed.

(** C2, as the code has it: when the scanner stands at a [{{], the span up
    to the first following [}}] is copied unchanged, whatever its interior,
    and the scan goes on behind it; with no [}}] ahead the rest of the
    input is copied as it is. *)
Theorem double_brace_span_verbatim (pre t : bytes) :
  asciiOnly (pre ++ B "{{" ++ t) ->
  scannedPrefix pre ->
  (forall interior rest,
     t = interior ++ B "}}" ++ rest ->
     index (interior ++ B "}}") (B "}}") = Some (length interior) ->
     substituteTemplateCharacterAliases (pre ++ B "{{" ++ t)
     = substituteTemplateCharacterAliases pre
         ++ B "{{" ++ interior ++ B "}}"
         ++ substituteTemplateCharacterAliases rest)
  /\ (index t (B "}}") = None ->
      substituteTemplateCharacterAliases (pre ++ B "{{" ++ t)
      = substituteTemplateCharacterAliases pre ++ B "{{" ++ t).
Proof.
  intros _ Hpre. split.
  - intros interior rest -> Hi.
    rewrite !substitute_scan, scan_scannedPrefix, scan_span by assumption.
    reflexivity.
  - intros Hi.
    rewrite !substitute_scan, scan_scannedPrefix by assumption.
    cbn [B list_ascii_of_string app]. now rewrite scan_expr_open.
Qed.

Lemma double_brace_span_verbatim_witness :
  substituteTemplateCharacterAliases (B "{green} say {{ green }} {green}")
  = B "{66} say {{ green }} {66}"
  /\ substituteTemplateCharacterAliases (B "{green} say {{ green } {green}")
     = B "{66} say {{ green } {green}".
Proof.
  split.
  - exact (proj1 (double_brace_span_verbatim (B "{green} say ")
                    (B " green }} {green}") eq_refl scanned_green_say)
             (B " green ") (B " {green}") eq_refl eq_refl).
  - exact (proj2 (double_brace_span_verbatim (B "{green} say ")
                    (B " green } {green}") eq_refl scanned_green_say) eq_refl).
Defined.

(** C2 as stated fails for a [{{] the scanner does not stand at: inside a
    single-brace token, the span is part of the token's interior, which is
    trimmed. *)
Lemma double_brace_inside_token_counterexample :
  index (B "{a{{ b }}") (B "{{ b }}") = Some 2 /\
  substituteTemplateCharacterAliases (B "{a{{ b }}") = B "{a{{ b}}" /\
  index (substituteTemplateCharacterAliases (B "{a{{ b }}")) (B "{{ b }}") = None.
Proof. repeat split; reflexivity. Qed.

(** ** Spellings of the aliases *)

Lemma bytesEqb_eq (a b : bytes) : bytesEqb a b = true <-> a = b.
Proof.
  unfold bytesEqb. destruct (list_eq_dec ascii_dec a b); split; auto; discriminate.
Qed.

Lemma bytesEqb_refl (a : bytes) : bytesEqb a a = true.
Proof. now apply bytesEqb_eq. Qed.

Lemma table_entries_ok : forallb entryOk templateCharacterAliases = true.
Proof. vm_compute. reflexivity. Qed.

Lemma table_entry (k : bytes) (v : Z) :
  In (k, v) templateCharacterAliases ->
  keyShape k = true /\ aliasLookup templateCharacterAliases k = Some v.
Proof.
  intros H.
  pose proof (proj1 (forallb_forall _ _) table_entries_ok _ H) as Hok.
  unfold entryOk in Hok. cbn [fst snd] in Hok.
  apply andb_true_iff in Hok as [Hs Hl]. split; [assumption|].
  destruct (aliasLookup templateCharacterAliases k) as [w|]; [|discriminate].
  apply Z.eqb_eq in Hl. now subst.
Qed.

Lemma letter_variant_plain (c : ascii) :
  isLowerLetter (toLowerByte c) = true ->
  isSpace c = false /\ isSeparator c = false /\ isDigit c = false /\
  c <> "-" /\ c <> "+" /\ c <> "{" /\ c <> "}" /\
  foldSeparator (toLowerByte c) = toLowerByte c.
Proof. by_byte c. Qed.

Lemma letter_plain (c : ascii) :
  isLowerLetter c = true -> isSpace c = false /\ toLowerByte c = c.
Proof. by_byte c. Qed.

Lemma separator_folds (c : ascii) :
  isSeparator c = true ->
  isSpace (foldSeparator (toLowerByte c)) = true /\ c <> "{" /\ c <> "}".
Proof. by_byte c. Qed.

Lemma space_folds (c : ascii) :
  isSpace c = true ->
  foldSeparator (toLowerByte c) = c /\ isSeparator c = true.
Proof. by_byte c. Qed.

(** *** Trimming *)

Lemma trimLeft_split (s : bytes) :
  exists l, s = l ++ trimLeft s /\ forallb isSpace l = true.
Proof.
  induction s as [|c s [l [Hs Hl]]]; simpl.
  - now exists [].
  - destruct (isSpace c) eqn:Hc.
    + exists (c :: l). simpl. rewrite Hc, Hl. split; [now rewrite <- Hs|reflexivity].
    + now exists [].
Qed.

Lemma trimLeft_app (l r : bytes) (c : ascii) :
  isSpace c = false -> trimLeft (l ++ c :: r) = trimLeft l ++ c :: r.
Proof.
  intros Hc. induction l as [|x l IH]; simpl.
  - now rewrite Hc.
  - destruct (isSpace x); [exact IH|reflexivity].
Qed.

Lemma trimLeft_idem (s : bytes) : trimLeft (trimLeft s) = trimLeft s.
Proof.
  induction s as [|c s IH]; simpl; [reflexivity|].
  destruct (isSpace c) eqn:Hc; [exact IH|]. simpl. now rewrite Hc.
Qed.

Lemma trimLeft_spaces (l s : bytes) :
  forallb isSpace l = true -> trimLeft (l ++ s) = trimLeft s.
Proof.
  induction l as [|x l IH]; simpl; intros H; [reflexivity|].
  apply andb_true_iff in H as [-> H]. now apply IH.
Qed.

Lemma trimRight_cons (c : ascii) (s : bytes) :
  isSpace c = false -> trimRight (c :: s) = c :: trimRight s.
Proof.
  intros Hc. unfold trimRight. simpl rev.
  rewrite trimLeft_app by assumption. now rewrite rev_app_distr.
Qed.

Lemma trimRight_split (s : bytes) :
  exists r, s = trimRight s ++ r /\ forallb isSpace r = true.
Proof.
  destruct (trimLeft_split (rev s)) as [l [Hs Hl]].
  exists (rev l). split.
  - unfold trimRight. rewrite <- rev_app_distr, <- Hs. now rewrite rev_involutive.
  - rewrite forallb_forall in *. intros x Hx. apply Hl. now apply in_rev.
Qed.

Lemma TrimSpace_split (s : bytes) :
  exists l r, s = l ++ TrimSpace s ++ r /\
              forallb isSpace l = true /\ forallb isSpace r = true.
Proof.
  destruct (trimLeft_split s) as [l [Hs Hl]].
  destruct (trimRight_split (trimLeft s)) as [r [Ht Hr]].
  exists l, r. unfold TrimSpace. now rewrite <- Ht.
Qed.

Lemma TrimSpace_trimmed (s : bytes) : trimmed (TrimSpace s).
Proof.
  unfold trimmed, TrimSpace. split.
  - pose proof (trimLeft_idem s) as Hi.
    destruct (trimLeft s) as [|c x] eqn:E; [reflexivity|].
    assert (Hc : isSpace c = false).
    { simpl in Hi. destruct (isSpace c) eqn:Hc; [|reflexivity].
      exfalso. destruct (trimLeft_split x) as [l [Hx _]].
      apply (f_equal (@length ascii)) in Hi. rewrite Hx in Hi at 2.
      simpl in Hi. rewrite length_app in Hi. lia. }
    rewrite trimRight_cons by assumption. simpl. now rewrite Hc.
  - unfold trimRight. now rewrite rev_involutive, trimLeft_idem.
Qed.

Lemma trimmed_TrimSpace (s : bytes) : trimmed s -> TrimSpace s = s.
Proof.
  intros [Hl Hr]. unfold TrimSpace, trimRight.
  now rewrite Hl, Hr, rev_involutive.
Qed.

Lemma TrimSpace_idem (s : bytes) : TrimSpace (TrimSpace s) = TrimSpace s.
Proof. apply trimmed_TrimSpace, TrimSpace_trimmed. Qed.

(** Trimming gives a segment of the string. *)
Lemma TrimSpace_incl (s : bytes) (c : ascii) : In c (TrimSpace s) -> In c s.
Proof.
  destruct (TrimSpace_split s) as [l [r [Hs _]]]. intros H.
  rewrite Hs. apply in_or_app. right. apply in_or_app. now left.
Qed.

(** *** Fields *)

Lemma fieldsFrom_spaces (ws s cur : bytes) :
  forallb isSpace ws = true -> ws <> [] ->
  fieldsFrom cur (ws ++ s) =
    match cur with [] => fieldsFrom [] s | _ :: _ => rev cur :: fieldsFrom [] s end.
Proof.
  revert cur; induction ws as [|c ws IH]; intros cur H Hne; [congruence|].
  simpl in H. apply andb_true_iff in H as [Hc H].
  cbn [app fieldsFrom]. rewrite Hc.
  destruct ws as [|c' ws'].
  - reflexivity.
  - destruct cur; rewrite (IH [] H) by discriminate; reflexivity.
Qed.

Lemma fieldsFrom_leading (ws s : bytes) :
  forallb isSpace ws = true -> fieldsFrom [] (ws ++ s) = fieldsFrom [] s.
Proof.
  intros H. destruct ws; [reflexivity|].
  now rewrite fieldsFrom_spaces.
Qed.

Lemma fieldsFrom_trailing (s ws cur : bytes) :
  forallb isSpace ws = true -> fieldsFrom cur (s ++ ws) = fieldsFrom cur s.
Proof.
  intros H. revert cur; induction s as [|c s IH]; intros cur.
  - destruct ws as [|w ws]; [reflexivity|].
    rewrite <- (app_nil_r (w :: ws)) at 1. rewrite app_nil_l.
    rewrite fieldsFrom_spaces by (assumption || discriminate).
    now destruct cur.
  - cbn [app fieldsFrom]. destruct (isSpace c); [|apply IH].
    destruct cur; now rewrite IH.
Qed.

Lemma normalise_map (s : bytes) :
  replaceSeparators (ToLower s) = map normByte s.
Proof. unfold replaceSeparators, ToLower. now rewrite map_map. Qed.

Lemma forallb_norm_spaces (ws : bytes) :
  forallb isSpace ws = true -> forallb isSpace (map normByte ws) = true.
Proof.
  induction ws as [|c ws IH]; simpl; [reflexivity|]. intros H.
  apply andb_true_iff in H as [Hc H]. rewrite IH by assumption.
  unfold normByte. destruct (space_folds c Hc) as [-> _]. now rewrite Hc.
Qed.

Lemma Fields_norm_TrimSpace (s : bytes) :
  Fields (map normByte (TrimSpace s)) = Fields (map normByte s).
Proof.
  destruct (TrimSpace_split s) as [l [r [Hs [Hl Hr]]]].
  rewrite Hs at 2. rewrite !map_app. unfold Fields.
  rewrite fieldsFrom_leading by now apply forallb_norm_spaces.
  now rewrite fieldsFrom_trailing by now apply forallb_norm_spaces.
Qed.

Lemma fieldsFrom_variant (k k' : bytes) :
  aliasVariant k k' ->
  forall cur, fieldsFrom cur (map normByte k') = fieldsFrom cur k.
Proof.
  induction 1 as [|c c' k k' Hc Hl _ IH|sep k k' Hne Hsep _ IH]; intros cur.
  - reflexivity.
  - cbn [map fieldsFrom]. subst c.
    destruct (letter_variant_plain c' Hc) as (_ & _ & _ & _ & _ & _ & _ & Hf).
    destruct (letter_plain _ Hc) as [Hs _].
    unfold normByte. rewrite Hf, Hs. apply IH.
  - rewrite map_app, fieldsFrom_spaces.
    + cbn [fieldsFrom]. change (isSpace " ") with true. cbv iota.
      destruct cur; now rewrite IH.
    + clear -Hsep. induction sep as [|c sep IH]; [reflexivity|].
      simpl in *. apply andb_true_iff in Hsep as [Hc Hsep].
      rewrite IH by assumption. unfold normByte.
      now destruct (separator_folds c Hc) as [-> _].
    + destruct sep; [congruence|discriminate].
Qed.

(** *** Resolving a spelling *)

Lemma variant_bytes (k k' : bytes) :
  aliasVariant k k' -> forall c, In c k' -> c <> "{" /\ c <> "}".
Proof.
  induction 1 as [|c c' k k' Hc Hl _ IH|sep k k' Hne Hsep _ IH]; intros x Hx.
  - destruct Hx.
  - destruct Hx as [<-|Hx]; [|now apply IH]. subst c.
    now destruct (letter_variant_plain c' Hc) as (_ & _ & _ & _ & _ & ? & ? & _).
  - apply in_app_or in Hx as [Hx|Hx]; [|now apply IH].
    rewrite forallb_forall in Hsep.
    now destruct (separator_folds x (Hsep x Hx)) as (_ & ? & ?).
Qed.

Lemma space_bytes (ws : bytes) :
  forallb isSpace ws = true -> forall c, In c ws -> c <> "{" /\ c <> "}".
Proof.
  intros H c Hc. rewrite forallb_forall in H.
  destruct (space_folds c (H c Hc)) as [_ Hs].
  now destruct (separator_folds c Hs) as (_ & ? & ?).
Qed.

Lemma hasPrefix_open_false (s : bytes) :
  (forall c, In c s -> c <> "{") -> hasPrefix s (B "{") = false.
Proof.
  destruct s as [|c s]; [reflexivity|]. intros H. simpl.
  destruct (Ascii.eqb_spec c "{") as [->|]; [|reflexivity].
  exfalso. now apply (H "{"); [left|].
Qed.

Lemma Atoi_not_number (c : ascii) (s : bytes) :
  isDigit c = false -> c <> "-" -> c <> "+" -> Atoi (c :: s) = None.
Proof.
  intros Hd Hm Hp. unfold Atoi, parseInt64.
  destruct c as [[] [] [] [] [] [] [] []];
    try discriminate Hd; try congruence; reflexivity.
Qed.

Lemma keyShape_variant (k : bytes) : forallb isKeyByte k = true -> aliasVariant k k.
Proof.
  induction k as [|c k IH]; simpl; intros H; [constructor|].
  apply andb_true_iff in H as [Hc H]. unfold isKeyByte in Hc.
  destruct (isLowerLetter c) eqn:Hl.
  - apply variant_letter; auto. now destruct (letter_plain c Hl).
  - simpl in Hc. apply Ascii.eqb_eq in Hc as ->.
    apply (variant_space [" "]); auto. discriminate.
Qed.

Lemma canonicalAlias_variant (k k' pad1 pad2 : bytes) :
  aliasVariant k k' ->
  forallb isSpace pad1 = true -> forallb isSpace pad2 = true ->
  canonicalAlias (TrimSpace (pad1 ++ k' ++ pad2)) = Join (Fields k) (B " ").
Proof.
  intros Hv H1 H2. unfold canonicalAlias.
  rewrite normalise_map, !Fields_norm_TrimSpace, !map_app. unfold Fields.
  rewrite fieldsFrom_leading by now apply forallb_norm_spaces.
  rewrite fieldsFrom_trailing by now apply forallb_norm_spaces.
  now rewrite (fieldsFrom_variant k k' Hv).
Qed.

(** C3: every key of the table, written between braces, resolves to its
    code; so does every spelling of it with letters in either case and its
    spaces written as runs of white space, [_] or [-] (and with white space
    around it inside the braces). *)
Theorem alias_spellings_resolve (k : bytes) (v : Z) :
  In (k, v) templateCharacterAliases ->
  substituteTemplateCharacterAliases (B "{" ++ k ++ B "}")
  = B "{" ++ formatInt v ++ B "}"
  /\ forall k' pad1 pad2,
       aliasVariant k k' ->
       forallb isSpace pad1 = true -> forallb isSpace pad2 = true ->
       substituteTemplateCharacterAliases (B "{" ++ pad1 ++ k' ++ pad2 ++ B "}")
       = B "{" ++ formatInt v ++ B "}".
Proof.
  intros Hin. destruct (table_entry k v Hin) as [Hshape Hlook].
  unfold keyShape in Hshape.
  apply andb_true_iff in Hshape as [Hshape Hjoin].
  apply andb_true_iff in Hshape as [Hbytes Hfirst].
  apply bytesEqb_eq in Hjoin.
  assert (Hgen : forall k' pad1 pad2,
       aliasVariant k k' ->
       forallb isSpace pad1 = true -> forallb isSpace pad2 = true ->
       substituteTemplateCharacterAliases (B "{" ++ pad1 ++ k' ++ pad2 ++ B "}")
       = B "{" ++ formatInt v ++ B "}").
  { intros k' pad1 pad2 Hv H1 H2.
    assert (Hbr : forall c, In c (pad1 ++ k' ++ pad2) -> c <> "{" /\ c <> "}").
    { intros c Hc. apply in_app_or in Hc as [Hc|Hc];
        [now apply (space_bytes pad1)|].
      apply in_app_or in Hc as [Hc|Hc];
        [now apply (variant_bytes k k')|now apply (space_bytes pad2)]. }
    rewrite substitute_scan.
    replace (B "{" ++ pad1 ++ k' ++ pad2 ++ B "}")
      with (B "{" ++ (pad1 ++ k' ++ pad2) ++ B "}" ++ [])
      by now rewrite app_nil_r, <- !app_assoc.
    rewrite scan_token, scan_nil, app_nil_r.
    - (* the token starts with a letter, so it is no number *)
      destruct k as [|c k0]; [discriminate|].
      inversion Hv as [|c1 c' k1 k1' Hc Hl Hv'|sep k1 k1' Hne Hsep Hv']; subst.
      2:{ discriminate Hfirst. }
      destruct (letter_variant_plain c' Hc) as (Hs & _ & Hd & Hm & Hp & _).
      assert (Htok : exists r, TrimSpace (pad1 ++ (c' :: k1') ++ pad2) = c' :: r).
      { unfold TrimSpace. rewrite trimLeft_spaces by assumption.
        simpl. rewrite Hs, trimRight_cons by assumption. eauto. }
      destruct Htok as [r Htok].
      unfold rewriteTemplateToken.
      pose proof (canonicalAlias_variant _ _ pad1 pad2 Hv H1 H2) as Hcan.
      rewrite Htok in *. rewrite (Atoi_not_number c' r Hd Hm Hp).
      now rewrite Hcan, Hjoin, Hlook.
    - intros Hc. now apply Hbr in Hc.
    - apply hasPrefix_open_false. intros c Hc. now apply Hbr in Hc. }
  split; [|exact Hgen].
  specialize (Hgen k [] [] (keyShape_variant k Hbytes) eq_refl eq_refl).
  now rewrite app_nil_l in Hgen.
Qed.

Lemma question_mark_spelling :
  aliasVariant (B "question mark") (B "Question_- MARK").
Proof.
  cbn. repeat (apply variant_letter; [reflexivity|reflexivity|]).
  apply (variant_space (B "_- ")); [discriminate|reflexivity|].
  repeat (apply variant_letter; [reflexivity|reflexivity|]). constructor.
Qed.

Lemma question_mark_in_table : In (B "question mark", 60%Z) templateCharacterAliases.
Proof. cbn. do 30 right. left. reflexivity. Qed.

Lemma alias_spellings_resolve_witness :
  substituteTemplateCharacterAliases (B "{question mark}") = B "{60}"
  /\ substituteTemplateCharacterAliases (B "{  Question_- MARK }") = B "{60}".
Proof.
  destruct (alias_spellings_resolve _ _ question_mark_in_table) as [H1 H2].
  split; [exact H1|].
  exact (H2 (B "Question_- MARK") (B "  ") (B " ")
            question_mark_spelling eq_refl eq_refl).
Defined.

(** ** Idempotence of the resolver *)

(** The six cases of an iteration of the scanner. *)
Lemma scan_cases (s : bytes) :
  s = []
  \/ (exists c s1, s = c :: s1 /\ c <> "{" /\ scan s = c :: scan s1)
  \/ (exists t, s = "{" :: "{" :: t /\ index t (B "}}") = None /\ scan s = s)
  \/ (exists t e, s = "{" :: "{" :: t /\ index t (B "}}") = Some e /\
        scan s = "{" :: "{" :: firstn (e + 2) t ++ scan (skipn (e + 2) t))
  \/ (exists s1, s = "{" :: s1 /\ hasPrefix s1 (B "{") = false /\
        indexByte s1 "}" = None /\ scan s = s)
  \/ (exists s1 e, s = "{" :: s1 /\ hasPrefix s1 (B "{") = false /\
        indexByte s1 "}" = Some e /\
        scan s = rewriteTemplateToken (TrimSpace (firstn e s1))
                   ++ scan (skipn (e + 1) s1)).
Proof.
  destruct s as [|c s1]; [now left|right].
  destruct (Ascii.eqb_spec c "{") as [->|Hne].
  2:{ left. exists c, s1. auto using scan_plain. }
  right.
  assert (Hsingle : hasPrefix s1 (B "{") = false ->
    (exists s1', "{" :: s1 = "{" :: s1' /\ hasPrefix s1' (B "{") = false /\
        indexByte s1' "}" = None /\ scan ("{" :: s1) = "{" :: s1)
    \/ (exists s1' e, "{" :: s1 = "{" :: s1' /\ hasPrefix s1' (B "{") = false /\
        indexByte s1' "}" = Some e /\
        scan ("{" :: s1) = rewriteTemplateToken (TrimSpace (firstn e s1'))
                   ++ scan (skipn (e + 1) s1'))).
  { intros Hp. destruct (indexByte s1 "}") as [e|] eqn:Hi.
    - right. exists s1, e. auto using scan_token_closed.
    - left. exists s1. auto using scan_token_open. }
  destruct s1 as [|d t]; [do 2 right; now apply Hsingle|].
  destruct (Ascii.eqb_spec d "{") as [->|Hd].
  - clear Hsingle. destruct (index t (B "}}")) as [e|] eqn:Hi.
    + right; left. exists t, e. auto using scan_expr_closed.
    + left. exists t. auto using scan_expr_open.
  - do 2 right. apply Hsingle. simpl.
    now destruct (Ascii.eqb_spec d "{").
Qed.

Lemma table_codes_stable :
  forallb (fun e => emitsStable (formatInt (snd e))) templateCharacterAliases = true.
Proof. vm_compute. reflexivity. Qed.

Lemma aliasLookup_In (tbl : list (bytes * Z)) (key : bytes) (v : Z) :
  aliasLookup tbl key = Some v -> exists k, In (k, v) tbl.
Proof.
  induction tbl as [|[k w] tbl IH]; simpl; [discriminate|].
  destruct (bytesEqb k key).
  - intros [= ->]. exists k. now left.
  - intros H. destruct (IH H) as [k' Hk']. exists k'. now right.
Qed.

Lemma not_In_close (body : bytes) :
  existsb (Ascii.eqb "}") body = false -> ~ In "}" body.
Proof.
  intros H Hin. assert (E : existsb (Ascii.eqb "}") body = true).
  { apply existsb_exists. exists "}". split; [assumption|reflexivity]. }
  congruence.
Qed.

(** The shape of what a token is rewritten to. *)
Lemma rewrite_shape (tok : bytes) :
  ~ In "}" tok -> TrimSpace tok = tok ->
  exists body,
    rewriteTemplateToken tok = "{" :: body ++ ["}"] /\
    ~ In "}" body /\ TrimSpace body = body /\
    rewriteTemplateToken body = "{" :: body ++ ["}"].
Proof.
  intros Hin Htrim. unfold rewriteTemplateToken at 1.
  destruct tok as [|c l] eqn:E; [exists []; repeat split; auto|].
  rewrite <- E in *. clear E c l.
  assert (Hself : forall r, rewriteTemplateToken tok = r ->
            r = "{" :: tok ++ ["}"] ->
            exists body, r = "{" :: body ++ ["}"] /\
              ~ In "}" body /\ TrimSpace body = body /\
              rewriteTemplateToken body = "{" :: body ++ ["}"]).
  { intros r Hr ->. exists tok. auto. }
  destruct (Atoi tok) as [z|] eqn:Ha.
  - apply Hself; [|reflexivity]. unfold rewriteTemplateToken.
    destruct tok; [discriminate Ha|]. now rewrite Ha.
  - destruct (aliasLookup templateCharacterAliases (canonicalAlias tok))
      as [code|] eqn:Hl.
    + destruct (aliasLookup_In _ _ _ Hl) as [k Hk].
      pose proof (proj1 (forallb_forall _ _) table_codes_stable _ Hk) as Hok.
      cbn [snd] in Hok. unfold emitsStable in Hok.
      repeat (apply andb_true_iff in Hok as [Hok ?]).
      exists (formatInt code). repeat split.
      * apply not_In_close. now apply negb_true_iff.
      * now apply bytesEqb_eq.
      * now apply bytesEqb_eq in Hok.
    + apply Hself; [|reflexivity]. unfold rewriteTemplateToken.
      destruct tok; [reflexivity|]. now rewrite Ha, Hl.
Qed.

(** *** Occurrences of the closing pair *)

Lemma index_close_skip (x : ascii) (s : bytes) :
  x <> "}" -> index (x :: s) (B "}}") = option_map S (index s (B "}}")).
Proof.
  intros Hx. cbn [index]. simpl hasPrefix.
  now destruct (Ascii.eqb_spec x "}").
Qed.

Lemma index_close_skip2 (x y : ascii) (s : bytes) :
  y <> "}" ->
  index (x :: y :: s) (B "}}") = option_map S (index (y :: s) (B "}}")).
Proof.
  intros Hy. cbn [index]. simpl hasPrefix.
  destruct (Ascii.eqb_spec y "}"); [contradiction|].
  now destruct (Ascii.eqb x "}").
Qed.

Lemma index_close_app (a s : bytes) :
  ~ In "}" a ->
  index (a ++ s) (B "}}") = option_map (Nat.add (length a)) (index s (B "}}")).
Proof.
  induction a as [|x a IH]; intros H.
  - cbn [app length]. now destruct (index s (B "}}")).
  - cbn [app length]. rewrite index_close_skip by (intros ->; apply H; now left).
    rewrite IH by (intros ?; apply H; now right).
    now destruct (index s (B "}}")).
Qed.

Lemma index_close_In (s : bytes) (j : nat) :
  index s (B "}}") = Some j -> In "}" s.
Proof.
  intros H. rewrite (index_split _ _ _ H).
  apply in_or_app. right. now left.
Qed.

Lemma index_cons (x : ascii) (s sub : bytes) :
  index (x :: s) sub =
  if hasPrefix (x :: s) sub then Some 0 else option_map S (index s sub).
Proof. reflexivity. Qed.

Lemma token_interior (s1 : bytes) (e : nat) :
  indexByte s1 "}" = Some e ->
  ~ In "}" (TrimSpace (firstn e s1)) /\
  length (skipn (e + 1) s1) <= length s1.
Proof.
  intros H. destruct (indexByte_Some _ _ _ H) as [_ Hn]. split.
  - intros Hin. apply Hn. now apply TrimSpace_incl.
  - rewrite length_skipn. lia.
Qed.

Lemma skipn_past (a s : bytes) (k : nat) :
  skipn (length a + k) (a ++ s) = skipn k s.
Proof.
  rewrite skipn_app, skipn_all2 by lia.
  now replace (length a + k - length a) with k by lia.
Qed.

Lemma index_close_firstn (t r : bytes) (e : nat) :
  index t (B "}}") = Some e -> index (firstn (e + 2) t ++ r) (B "}}") = Some e.
Proof. exact (index_firstn_app t (B "}}") r e). Qed.

Lemma firstn_skipn_through (t r : bytes) (k : nat) :
  k <= length t ->
  firstn k (firstn k t ++ r) = firstn k t /\ skipn k (firstn k t ++ r) = r.
Proof.
  intros Hk. pose proof (firstn_length_le t Hk) as Hl. split.
  - rewrite firstn_app, Hl, Nat.sub_diag, firstn_firstn, Nat.min_id.
    cbn [firstn]. now rewrite app_nil_r.
  - rewrite skipn_app, Hl, Nat.sub_diag, skipn_all2 by lia. reflexivity.
Qed.

(** Behind the first closing pair of its own output (with any byte [x] put
    in front), the resolver's output is again an output of the resolver, for
    an input that is no longer. *)
Lemma scan_resumes (n : nat) : forall r, length r <= n -> forall x j,
  index (x :: scan r) (B "}}") = Some j ->
  exists r', length r' <= length r /\ skipn (j + 2) (x :: scan r) = scan r'.
Proof.
  induction n as [|n IH]; intros r Hn x j Hi;
    destruct (scan_cases r)
      as [->|[(c & s1 & -> & Hc & Hs)|[(t & -> & Hi0 & Hs)
         |[(t & e & -> & Hi0 & Hs)|[(s1 & -> & Hp & Hi0 & Hs)
         |(s1 & e & -> & Hp & Hi0 & Hs)]]]]];
    try (exfalso; revert Hi; rewrite scan_nil; cbn;
         destruct (Ascii.eqb x "}"); discriminate);
    try (simpl in Hn; lia); simpl in Hn.
  - (* a plain byte *)
    rewrite Hs in *. rewrite index_cons in Hi.
    destruct (hasPrefix (x :: c :: scan s1) (B "}}")) eqn:Hpre.
    + injection Hi as <-. exists s1. split; [simpl; lia|reflexivity].
    + destruct (index (c :: scan s1) (B "}}")) as [j'|] eqn:Hj; [|discriminate].
      injection Hi as <-.
      destruct (IH s1 ltac:(lia) c j' Hj) as (r' & Hlen & Hr').
      exists r'. split; [simpl; lia|exact Hr'].
  - (* an expression left open: no closing pair at all *)
    rewrite Hs in Hi.
    rewrite index_close_skip2, index_close_skip, index_close_skip, Hi0 in Hi
      by discriminate.
    discriminate.
  - (* an expression span *)
    rewrite Hs in *.
    rewrite index_close_skip2, index_close_skip, index_close_skip in Hi
      by discriminate.
    pose proof (index_length _ _ _ Hi0) as Hlen. simpl in Hlen.
    rewrite (index_close_firstn t _ e Hi0) in Hi.
    injection Hi as <-. exists (skipn (e + 2) t). split.
    + rewrite length_skipn. simpl. lia.
    + cbn [plus skipn]. now apply firstn_skipn_through.
  - (* a token left open: no closing brace at all *)
    rewrite Hs in Hi.
    rewrite index_close_skip2, index_close_skip in Hi by discriminate.
    destruct (index s1 (B "}}")) as [j'|] eqn:Hj; [|discriminate].
    apply index_close_In in Hj. now apply indexByte_None in Hi0.
  - (* a token *)
    destruct (token_interior _ _ Hi0) as [Hin Hlen].
    destruct (rewrite_shape _ Hin (TrimSpace_idem _))
      as (body & Hrw & Hbody & _).
    rewrite Hs, Hrw in *. cbn [app] in *. rewrite <- app_assoc in *.
    cbn [app] in *.
    rewrite index_close_skip2 in Hi by discriminate.
    change ("{" :: body ++ "}" :: scan (skipn (e + 1) s1))
      with (("{" :: body) ++ "}" :: scan (skipn (e + 1) s1)) in Hi.
    rewrite index_close_app in Hi
      by (intros [H|H]; [discriminate H|contradiction]).
    destruct (index ("}" :: scan (skipn (e + 1) s1)) (B "}}")) as [j'|] eqn:Hj;
      [|discriminate].
    injection Hi as <-.
    destruct (IH (skipn (e + 1) s1) ltac:(lia) "}" j' Hj) as (r' & Hlen' & Hr').
    exists r'. split; [simpl; lia|]. rewrite <- Hr'.
    cbn [length plus skipn].
    now rewrite <- Nat.add_assoc, skipn_past.
Qed.

Lemma scan_idem_len (n : nat) : forall s, length s <= n -> scan (scan s) = scan s.
Proof.
  induction n as [|n IH]; intros s Hn;
    destruct (scan_cases s)
      as [->|[(c & s1 & -> & Hc & Hs)|[(t & -> & Hi0 & Hs)
         |[(t & e & -> & Hi0 & Hs)|[(s1 & -> & Hp & Hi0 & Hs)
         |(s1 & e & -> & Hp & Hi0 & Hs)]]]]];
    try reflexivity; try (simpl in Hn; lia); simpl in Hn.
  - rewrite Hs, scan_plain by assumption. f_equal. apply IH. lia.
  - now rewrite !Hs.
  - rewrite Hs.
    pose proof (index_length _ _ _ Hi0) as Hlen. simpl in Hlen.
    rewrite (scan_expr_closed _ e (index_close_firstn t _ e Hi0)).
    destruct (firstn_skipn_through t (scan (skipn (e + 2) t)) (e + 2) Hlen)
      as [-> ->].
    rewrite IH; [reflexivity|]. rewrite length_skipn. lia.
  - now rewrite !Hs.
  - destruct (token_interior _ _ Hi0) as [Hin Hlen].
    destruct (rewrite_shape _ Hin (TrimSpace_idem _))
      as (body & Hrw & Hbody & Htrim & Hstable).
    rewrite Hs, Hrw. cbn [app]. rewrite <- app_assoc. cbn [app].
    set (r2 := skipn (e + 1) s1) in *.
    assert (Hu : scan (scan r2) = scan r2) by (apply IH; lia).
    destruct (hasPrefix body (B "{")) eqn:Hopen.
    + (* the emitted token starts an expression for the second pass *)
      apply hasPrefix_true in Hopen. cbn [B list_ascii_of_string app length] in Hopen.
      destruct body as [|b0 b']; [discriminate|].
      injection Hopen as ->. cbn [app].
      assert (Hb' : ~ In "}" b') by (intros ?; apply Hbody; now right).
      destruct (index (b' ++ "}" :: scan r2) (B "}}")) as [e'|] eqn:Hi.
      * rewrite (scan_expr_closed _ _ Hi).
        rewrite index_close_app in Hi by assumption.
        destruct (index ("}" :: scan r2) (B "}}")) as [j'|] eqn:Hj; [|discriminate].
        injection Hi as <-.
        destruct (scan_resumes (length r2) r2 (le_n _) "}" j' Hj)
          as (r' & Hlen' & Hr').
        rewrite <- Nat.add_assoc, skipn_past, Hr'.
        rewrite IH by lia. rewrite <- Hr', <- (skipn_past b').
        now rewrite firstn_skipn.
      * now rewrite scan_expr_open.
    + pose proof (scan_token body (scan r2) Hbody Hopen) as Hst.
      cbn [B list_ascii_of_string app] in Hst.
      rewrite Hst, Htrim, Hstable, Hu. cbn [app].
      now rewrite <- app_assoc.
Qed.

(** C10: resolving the resolver's output changes nothing. *)
Theorem substitute_idempotent (s : bytes) :
  asciiOnly s ->
  substituteTemplateCharacterAliases (substituteTemplateCharacterAliases s)
  = substituteTemplateCharacterAliases s.
Proof.
  intros _. rewrite !substitute_scan. now apply (scan_idem_len (length s)).
Qed.

Lemma substitute_idempotent_witness :
  substituteTemplateCharacterAliases
    (substituteTemplateCharacterAliases (B "{ {a} {Green_} {{x}} { b }"))
  = substituteTemplateCharacterAliases (B "{ {a} {Green_} {{x}} { b }").
Proof. apply substitute_idempotent. reflexivity. Defined.

(** ** The transport client *)

Section TransportProperties.
Context {lib : Library}.

(** Logging succeeds and sends nothing. *)
Lemma logHTTP_run (c : Client) (direction url payload : bytes) (code : Z)
    (w : World) :
  exists text, logHTTP c direction url payload code w
               = (Ok tt, mkWorld text (wire w)).
Proof.
  unfold logHTTP, bind, fprint, ret.
  destruct (negb (verbose c) || negb (logWriter c)).
  - exists (logged w). now destruct w.
  - destruct (bytesEqb direction (B "request")); cbn; eauto.
Qed.

Lemma postMessage_run (c : Client) (payload : json) (w : World) (url : bytes) :
  ParseURL (baseURL c ++ writePath) = Some url ->
  exists text,
    postMessage c payload w
    = (postOutcome (httpClient c (postRequest c url payload)),
       mkWorld text (wire w ++ [postRequest c url payload])).
Proof.
  intros Hu. unfold postMessage. rewrite Hu. unfold bind at 1.
  destruct (logHTTP_run c (B "request") url (Marshal payload) 0 w) as [t1 ->].
  unfold bind at 1, doRequest. cbn [wire logged].
  fold (postRequest c url payload).
  destruct (httpClient c (postRequest c url payload)) as [cause|cause|resp];
    cbn [postOutcome]; try (eexists; reflexivity).
  unfold bind.
  destruct (logHTTP_run c (B "response") url (Body resp) (StatusCode resp)
              (mkWorld t1 (wire w ++ [postRequest c url payload]))) as [t2 ->].
  cbn [wire].
  destruct (StatusCode resp =? 409)%Z; [eexists; reflexivity|].
  destruct ((StatusCode resp <? 200) || (StatusCode resp >=? 300))%Z;
    eexists; reflexivity.
Qed.

Lemma FormatMessage_run (c : Client) (message model align justify : bytes)
    (w : World) (url : bytes) :
  ParseURL (vbmlURL c ++ vbmlFormatPath) = Some url ->
  exists text,
    FormatMessage c message model align justify w
    = (composeOutcome
         (httpClient c (composeRequest url message model align justify)),
       mkWorld text (wire w ++ [composeRequest url message model align justify])).
Proof.
  intros Hu. unfold FormatMessage. rewrite Hu. unfold bind at 1.
  destruct (logHTTP_run c (B "request") url
              (Marshal (JObject (composePayload message model align justify)))
              0 w) as [t1 ->].
  unfold bind at 1, doRequest. cbn [wire logged].
  fold (composeRequest url message model align justify).
  destruct (httpClient c (composeRequest url message model align justify))
    as [cause|cause|resp]; cbn [composeOutcome]; try (eexists; reflexivity).
  unfold bind.
  destruct (logHTTP_run c (B "response") url (Body resp) (StatusCode resp)
              (mkWorld t1 (wire w ++ [composeRequest url message model align justify])))
    as [t2 ->].
  cbn [wire].
  destruct ((StatusCode resp <? 200) || (StatusCode resp >=? 300))%Z;
    [eexists; reflexivity|].
  destruct (decodeComposeBody (Body resp)); eexists; reflexivity.
Qed.

(** C4: given the response to the board write, [SendCharacters] succeeds
    exactly when its status is 2xx or 409; for any other status it fails
    with an error that carries the status line and the trimmed body. *)
Theorem send_characters_status (c : Client) (characters : list (list Z))
    (w : World) (url : bytes) (resp : Response) :
  ParseURL (baseURL c ++ writePath) = Some url ->
  httpClient c (postRequest c url (JObject [(B "characters", matrixJSON characters)]))
    = Reply resp ->
  asciiOnly (Body resp) ->
  (fst (SendCharacters c characters w) = Ok tt
   <-> (200 <= StatusCode resp < 300 \/ StatusCode resp = 409)%Z)
  /\ (~ (200 <= StatusCode resp < 300 \/ StatusCode resp = 409)%Z ->
      fst (SendCharacters c characters w)
      = Err (APIStatusError (Status resp) (TrimSpace (Body resp)))).
Proof.
  intros Hu Hr _. unfold SendCharacters.
  destruct (postMessage_run c (JObject [(B "characters", matrixJSON characters)])
              w url Hu) as [text ->].
  rewrite Hr. cbn [postOutcome fst].
  destruct (Z.eqb_spec (StatusCode resp) 409) as [E|E].
  - split; [tauto|]. intros H. exfalso. apply H. now right.
  - destruct (Z.ltb_spec (StatusCode resp) 200) as [L|L];
      destruct (Z.geb_spec (StatusCode resp) 300) as [G|G]; cbn [orb];
      (split; [split; [try discriminate; try lia; intros _; left; lia
                      |intros [?|?]; try reflexivity; lia]
              |intros H; try reflexivity; exfalso; apply H; left; lia]).
Qed.

(** C5: the request [FormatMessage] sends carries the payload built from
    its arguments; for the model [note] the payload has a top-level style
    of height 3 and width 15, for [flagship] it has no style at all, and
    its one component always has the template, align and justify given. *)
Theorem format_message_request (c : Client) (text align justify : bytes)
    (w : World) (url : bytes) :
  ParseURL (vbmlURL c ++ vbmlFormatPath) = Some url ->
  (forall model,
     wire (snd (FormatMessage c text model align justify w))
     = wire w ++ [mkRequest (B "POST") url
                    [(B "Content-Type", B "application/json")]
                    (Marshal (JObject (composePayload text model align justify)))])
  /\ member (B "style") (composePayload text (B "note") align justify)
     = Some (JObject [(B "height", JNumber (B "3")); (B "width", JNumber (B "15"))])
  /\ member (B "style") (composePayload text (B "flagship") align justify) = None
  /\ (forall model,
       member (B "components") (composePayload text model align justify)
       = Some (JArray
                 [JObject [(B "template", JString text);
                           (B "style", JObject [(B "align", JString align);
                                                (B "justify", JString justify)])]])).
Proof.
  intros Hu. repeat split.
  - intros model.
    destruct (FormatMessage_run c text model align justify w url Hu) as [t ->].
    reflexivity.
  - intros model. unfold composePayload.
    destruct (bytesEqb model (B "note")); reflexivity.
Qed.

Lemma decodeComposeBody_cases (body : bytes) :
  (forall m, decodeComposeBody body = Ok m <->
     m <> [] /\
     (unmarshalResponse body = Some m \/
      yieldsNone (unmarshalResponse body) /\ unmarshalMatrix body = Some m))
  /\ (forall e, decodeComposeBody body = Err e <->
       e = NoCharactersError /\
       yieldsNone (unmarshalResponse body) /\ yieldsNone (unmarshalMatrix body)).
Proof.
  unfold decodeComposeBody, yieldsNone.
  destruct (unmarshalResponse body) as [[|r1 m1]|];
    destruct (unmarshalMatrix body) as [[|r2 m2]|];
    (split; intros x; split; intros H;
     [ inversion H; subst; clear H; intuition congruence
     | intuition (try congruence)
     | inversion H; subst; clear H; intuition congruence
     | intuition (try congruence) ]).
Qed.

Lemma decodeElems_encodes {A : Type} (R : json -> A -> Prop)
    (dec : A -> json -> option A) (zero : A) :
  (forall v x old, R v x -> dec old v = Some x) ->
  forall vs xs, Forall2 R vs xs ->
  forall cur, decodeElems dec zero cur vs = Some xs.
Proof.
  intros Hdec vs xs H. induction H as [|v x vs xs Hv _ IH]; intros cur.
  - reflexivity.
  - cbn [decodeElems]. now rewrite (Hdec v x _ Hv), IH.
Qed.

Lemma decodeRow_encodes (v : json) (row old : list Z) :
  encodesRow v row -> decodeRow old v = Some row.
Proof.
  intros (cells & -> & H). cbn [decodeRow].
  apply (decodeElems_encodes encodesInt); [|assumption].
  now intros c x o (literal & -> & Hp).
Qed.

Lemma decodeMatrix_encodes (v : json) (m cur : list (list Z)) :
  encodesMatrix v m -> decodeMatrix cur v = Some m.
Proof.
  intros (rows & -> & H). cbn [decodeMatrix].
  apply (decodeElems_encodes encodesRow); [|assumption].
  intros r x o Hr. now apply decodeRow_encodes.
Qed.

(** Both shapes of a compose response give the matrix they write, or the
    error when that matrix is empty. *)
Lemma decodeComposeBody_shapes (body : bytes) (v : json) (m : list (list Z)) :
  encodesMatrix v m ->
  jsonParse body = Some (JObject [(B "characters", v)]) \/ jsonParse body = Some v ->
  decodeComposeBody body =
    match m with [] => Err NoCharactersError | _ :: _ => Ok m end.
Proof.
  intros Hv Hp.
  pose proof (decodeMatrix_encodes v m [] Hv) as Hd.
  destruct Hv as (rs & -> & _).
  unfold decodeComposeBody, unmarshalResponse, unmarshalMatrix.
  destruct Hp as [-> | ->].
  - cbn [decodeResponse decodeCharactersField].
    change (matchesField (B "characters") (B "characters")) with true.
    cbv iota. rewrite Hd. now destruct m.
  - cbn [decodeResponse]. rewrite Hd. now destruct m.
Qed.

(** C6: on a 2xx compose response [FormatMessage] returns the matrix of
    the wrapped shape when that decoding gives a non-empty matrix, else
    the matrix of the bare array when that one does, and fails exactly when
    neither does; a wrapped body and a bare body that write the same
    matrix both give that matrix (the error, when it is empty). *)
Theorem format_message_decoding (c : Client) (text model align justify : bytes)
    (w : World) (url : bytes) (resp : Response) :
  ParseURL (vbmlURL c ++ vbmlFormatPath) = Some url ->
  httpClient c (composeRequest url text model align justify) = Reply resp ->
  (200 <= StatusCode resp < 300)%Z ->
  (forall m,
     fst (FormatMessage c text model align justify w) = Ok m <->
     m <> [] /\
     (unmarshalResponse (Body resp) = Some m \/
      yieldsNone (unmarshalResponse (Body resp)) /\
      unmarshalMatrix (Body resp) = Some m))
  /\ (forall e,
       fst (FormatMessage c text model align justify w) = Err e <->
       e = NoCharactersError /\
       yieldsNone (unmarshalResponse (Body resp)) /\
       yieldsNone (unmarshalMatrix (Body resp)))
  /\ (forall v m,
       encodesMatrix v m ->
       jsonParse (Body resp) = Some (JObject [(B "characters", v)]) \/
       jsonParse (Body resp) = Some v ->
       fst (FormatMessage c text model align justify w)
       = match m with [] => Err NoCharactersError | _ :: _ => Ok m end).
Proof.
  intros Hu Hr Hcode.
  destruct (FormatMessage_run c text model align justify w url Hu) as [t ->].
  rewrite Hr. cbn [fst composeOutcome].
  replace ((StatusCode resp <? 200) || (StatusCode resp >=? 300))%Z with false
    by (symmetry; apply orb_false_iff; split;
        [apply Z.ltb_ge|rewrite Z.geb_leb; apply Z.leb_gt]; lia).
  destruct (decodeComposeBody_cases (Body resp)) as [Hok Herr].
  split; [exact Hok|]. split; [exact Herr|].
  intros v m. apply decodeComposeBody_shapes.
Qed.

Lemma logging_keeps_post_outcome (c : Client) (enabled writer : bool)
    (payload : json) (w w' : World) :
  fst (postMessage (WithVerboseLogging enabled writer c) payload w)
  = fst (postMessage c payload w').
Proof.
  destruct (ParseURL (baseURL c ++ writePath)) as [url|] eqn:Hu.
  - destruct (postMessage_run (WithVerboseLogging enabled writer c) payload w url Hu)
      as [t ->].
    destruct (postMessage_run c payload w' url Hu) as [t' ->]. reflexivity.
  - unfold postMessage. cbn [baseURL WithVerboseLogging]. now rewrite Hu.
Qed.

(** C9: what [SendCharacters], [SendText] and [FormatMessage] return does
    not depend on the logging options of the client (nor on what has been
    logged before). *)
Theorem verbose_logging_noninterference (c : Client) (enabled writer : bool)
    (w w' : World) :
  (forall characters,
     fst (SendCharacters (WithVerboseLogging enabled writer c) characters w)
     = fst (SendCharacters c characters w'))
  /\ (forall text,
       fst (SendText (WithVerboseLogging enabled writer c) text w)
       = fst (SendText c text w'))
  /\ (forall message model align justify,
       fst (FormatMessage (WithVerboseLogging enabled writer c)
              message model align justify w)
       = fst (FormatMessage c message model align justify w')).
Proof.
  repeat split; intros.
  - apply logging_keeps_post_outcome.
  - apply logging_keeps_post_outcome.
  - destruct (ParseURL (vbmlURL c ++ vbmlFormatPath)) as [url|] eqn:Hu.
    + destruct (FormatMessage_run (WithVerboseLogging enabled writer c)
                  message model align justify w url Hu) as [t ->].
      destruct (FormatMessage_run c message model align justify w' url Hu)
        as [t' ->]. reflexivity.
    + unfold FormatMessage. cbn [vbmlURL WithVerboseLogging]. now rewrite Hu.
Qed.

End TransportProperties.

Lemma send_characters_status_witness :
  fst (@SendCharacters sampleLibrary
         (sampleClient (answering 409 (B "409 Conflict")
                          (Q "{'message':'already current'}")))
         [[68; 69]; [70; 71]]%Z (mkWorld [] [])) = Ok tt.
Proof.
  apply (proj1 (@send_characters_status sampleLibrary
                  (sampleClient (answering 409 (B "409 Conflict")
                                   (Q "{'message':'already current'}")))
                  [[68; 69]; [70; 71]]%Z (mkWorld [] [])
                  (B "https://cloud.vestaboard.com/")
                  (mkResponse 409 (B "409 Conflict")
                     (Q "{'message':'already current'}"))
                  eq_refl eq_refl eq_refl)).
  right. reflexivity.
Defined.

Lemma format_message_request_witness :
  map reqBody
    (wire (snd (@FormatMessage sampleLibrary
                  (sampleClient (answering 200 (B "200 OK") (B "[[1]]")))
                  (B "hello {66}") (B "note") (B "top") (B "left")
                  (mkWorld [] []))))
  = [Q "{'components':[{'template':'hello {66}','style':{'align':'top','justify':'left'}}],'style':{'height':3,'width':15}}"].
Proof.
  rewrite (proj1 (@format_message_request sampleLibrary
                    (sampleClient (answering 200 (B "200 OK") (B "[[1]]")))
                    (B "hello {66}") (B "top") (B "left") (mkWorld [] [])
                    (B "https://vbml.vestaboard.com/compose") eq_refl)
             (B "note")).
  reflexivity.
Defined.

Lemma format_message_decoding_witness :
  fst (@FormatMessage sampleLibrary
         (sampleClient (answering 200 (B "200 OK")
                          (Q "{'characters':[[1,2],[3,4]]}")))
         (B "hello") (B "flagship") (B "center") (B "center") (mkWorld [] []))
  = Ok [[1; 2]; [3; 4]]%Z
  /\ fst (@FormatMessage sampleLibrary
            (sampleClient (answering 200 (B "200 OK") (B "[[1,2],[3,4]]")))
            (B "hello") (B "flagship") (B "center") (B "center") (mkWorld [] []))
     = Ok [[1; 2]; [3; 4]]%Z.
Proof.
  split.
  - apply (proj1 (@format_message_decoding sampleLibrary
                    (sampleClient (answering 200 (B "200 OK")
                                     (Q "{'characters':[[1,2],[3,4]]}")))
                    (B "hello") (B "flagship") (B "center") (B "center")
                    (mkWorld [] []) (B "https://vbml.vestaboard.com/compose")
                    (mkResponse 200 (B "200 OK") (Q "{'characters':[[1,2],[3,4]]}"))
                    eq_refl eq_refl ltac:(cbn; lia))).
    split; [discriminate|]. left. reflexivity.
  - apply (proj1 (@format_message_decoding sampleLibrary
                    (sampleClient (answering 200 (B "200 OK") (B "[[1,2],[3,4]]")))
                    (B "hello") (B "flagship") (B "center") (B "center")
                    (mkWorld [] []) (B "https://vbml.vestaboard.com/compose")
                    (mkResponse 200 (B "200 OK") (B "[[1,2],[3,4]]"))
                    eq_refl eq_refl ltac:(cbn; lia))).
    split; [discriminate|]. right. split; [left|]; reflexivity.
Defined.

(** ** The raw-payload sniffer *)

Lemma decodeElems_isSome {A : Type} (dec : A -> json -> option A) (zero : A)
    (ok : json -> bool) :
  (forall old v, isSome (dec old v) = ok v) ->
  forall vs cur, isSome (decodeElems dec zero cur vs) = forallb ok vs.
Proof.
  intros Hdec vs. induction vs as [|v vs IH]; intros cur; [reflexivity|].
  cbn [decodeElems forallb].
  rewrite <- (IH (tl cur)), <- (Hdec match cur with [] => zero | o :: _ => o end v).
  destruct (dec _ v); [|reflexivity].
  now destruct (decodeElems dec zero (tl cur) vs).
Qed.

Lemma decodeInt_isSome (old : Z) (v : json) :
  isSome (decodeInt old v) = isDecodableCell v.
Proof. destruct v; try reflexivity. Qed.

Lemma decodeRow_isSome (old : list Z) (v : json) :
  isSome (decodeRow old v) = isDecodableRow v.
Proof.
  destruct v; try reflexivity. cbn [decodeRow isDecodableRow].
  apply decodeElems_isSome, decodeInt_isSome.
Qed.

Lemma decodeMatrix_isSome (cur : list (list Z)) (v : json) :
  isSome (decodeMatrix cur v) = isDecodableMatrix v.
Proof.
  destruct v; try reflexivity. cbn [decodeMatrix isDecodableMatrix].
  apply decodeElems_isSome, decodeRow_isSome.
Qed.

(** *** A text that starts with a bracket is an array *)

Lemma arrayAtBottom_cons (f : frame) (stk : list frame) :
  arrayAtBottom stk -> arrayAtBottom (f :: stk).
Proof. intros (above & d & ->). now exists (f :: above), d. Qed.

Lemma arrayAtBottom_tail (f : frame) (stk : list frame) :
  arrayAtBottom (f :: stk) -> stk <> [] -> arrayAtBottom stk.
Proof.
  intros (above & d & E) Hne. destruct above as [|g above].
  - injection E as _ ->. congruence.
  - injection E as _ ->. now exists above, d.
Qed.

Lemma arrayAtBottom_top (f g : frame) (stk : list frame) :
  arrayAtBottom (f :: stk) -> stk <> [] \/ (exists d, g = FArray d) ->
  arrayAtBottom (g :: stk).
Proof.
  intros H [Hne|[d ->]].
  - apply arrayAtBottom_cons. now apply (arrayAtBottom_tail f).
  - destruct stk as [|h stk]; [now exists [], d|].
    apply arrayAtBottom_cons. now apply (arrayAtBottom_tail f).
Qed.

Lemma arrayAtBottom_single (f : frame) :
  arrayAtBottom [f] -> exists d, f = FArray d.
Proof.
  intros (above & d & E). destruct above as [|g [|h above]]; try discriminate.
  injection E as ->. eauto.
Qed.

Lemma endValue_inArrayText (v : json) (stk : list frame) (res : option json) :
  arrayAtBottom stk \/ (stk = [] /\ exists elems, v = JArray elems) ->
  inArrayText (endValue v stk res).
Proof.
  intros [H|[-> [elems ->]]].
  - destruct stk as [|[done|done|done key] stk]; cbn [endValue].
    + destruct H as ([|? ?] & d & E); discriminate.
    + right; left. cbn [sstack]. apply (arrayAtBottom_top _ _ _ H). eauto.
    + now left.
    + right; left. cbn [sstack]. apply (arrayAtBottom_top _ _ _ H). left.
      intros ->. apply arrayAtBottom_single in H as [d Hd]. discriminate.
  - right; right. cbn. eauto.
Qed.

(** Closing the array or the object on top of the stack. *)
Lemma close_inArrayText (f : frame) (elems : list json) (v : json)
    (stk : list frame) (res : option json) :
  arrayAtBottom (f :: stk) ->
  (v = JArray elems /\ exists d, f = FArray d) \/ (exists d, f = FObject d) ->
  inArrayText (endValue v stk res).
Proof.
  intros H Hf. apply endValue_inArrayText.
  destruct stk as [|g stk].
  - right. split; [reflexivity|].
    apply arrayAtBottom_single in H as [d ->].
    destruct Hf as [[-> _]|[d' Hd]]; [eauto|discriminate].
  - left. now apply (arrayAtBottom_tail f).
Qed.

Lemma stepAfter_inArrayText (c : ascii) (stk : list frame) (res : option json) :
  arrayAtBottom stk -> inArrayText (stepAfter c stk res).
Proof.
  intros H. unfold stepAfter.
  destruct (isJSONSpace c); [now right; left|].
  destruct stk as [|[done|done|done key] stk]; try now left.
  - destruct (Ascii.eqb c ","); [now right; left|].
    destruct (Ascii.eqb c "]"); [|now left].
    apply (close_inArrayText _ (rev done) _ _ _ H). left. eauto.
  - destruct (Ascii.eqb c ","); [now right; left|].
    destruct (Ascii.eqb c "}"); [|now left].
    apply (close_inArrayText _ [] _ _ _ H). right. eauto.
Qed.

Lemma pushFrame_inArrayText (f : frame) (m : mode) (stk : list frame)
    (res : option json) :
  arrayAtBottom stk -> inArrayText (pushFrame f m stk res).
Proof.
  intros H. unfold pushFrame.
  destruct (N.of_nat (length (f :: stk)) <=? 10000)%N; [|now left].
  right; left. now apply arrayAtBottom_cons.
Qed.

Lemma stepValue_inArrayText (c : ascii) (stk : list frame) (res : option json) :
  arrayAtBottom stk -> inArrayText (stepValue c stk res).
Proof.
  intros H. unfold stepValue.
  repeat match goal with
         | |- inArrayText (if ?b then _ else _) => destruct b
         end;
    auto using pushFrame_inArrayText; try (now left); now (right; left).
Qed.

Lemma scanStep_inArrayText (s : scanner) (c : ascii) :
  inArrayText s -> inArrayText (scanStep s c).
Proof.
  intros [->|[H|(Hm & Hs & elems & Hr)]].
  - now left.
  - destruct s as [m stk res]. cbn [sstack] in H. unfold scanStep.
    cbn [smode sstack sresult].
    destruct m as [| | | | | |isKey acc|isKey acc|isKey acc more|st acc|rest v|];
      try (now left).
    + now apply stepValue_inArrayText.
    + destruct (isJSONSpace c); [now right; left|].
      destruct (Ascii.eqb c "]"); [|now apply stepValue_inArrayText].
      destruct stk as [|[done|done|done key] stk]; try now left.
      apply (close_inArrayText _ [] _ _ _ H). left. eauto.
    + destruct (isJSONSpace c); [now right; left|].
      destruct (Ascii.eqb c "}").
      * destruct stk as [|[done|done|done key] stk]; try now left.
        apply (close_inArrayText _ [] _ _ _ H). right. eauto.
      * destruct (Ascii.eqb c "034"); [now right; left|now left].
    + destruct (isJSONSpace c); [now right; left|].
      destruct (Ascii.eqb c "034"); [now right; left|now left].
    + destruct (isJSONSpace c); [now right; left|].
      destruct (Ascii.eqb c ":"); [now right; left|now left].
    + now apply stepAfter_inArrayText.
    + destruct (Ascii.eqb c "034").
      * unfold endString. destruct isKey.
        -- destruct stk as [|[done|done|done key] stk]; try now left.
           right; left. cbn [sstack]. apply (arrayAtBottom_top _ _ _ H). left.
           intros ->. apply arrayAtBottom_single in H as [d Hd]. discriminate.
        -- apply endValue_inArrayText. now left.
      * destruct (Ascii.eqb c "\"); [now right; left|].
        destruct (N_of_ascii c <? 32)%N; [now left|now right; left].
    + match goal with
      | |- inArrayText (if ?b then _ else _) => destruct b
      end; [now right; left|].
      destruct (Ascii.eqb c "u"); [now right; left|now left].
    + destruct (isHexDigit c); [|now left].
      destruct more as [|[|n]]; now right; left.
    + unfold stepNumber.
      assert (Hfin : inArrayText
                (match smode (endValue (JNumber (rev acc)) stk res) with
                 | MAfter => stepAfter c (sstack (endValue (JNumber (rev acc)) stk res))
                               (sresult (endValue (JNumber (rev acc)) stk res))
                 | _ => scanError
                 end)).
      { destruct (endValue_inArrayText (JNumber (rev acc)) stk res (or_introl H))
          as [->|[H'|(_ & Hs' & e' & Hr')]].
        - now left.
        - destruct (smode (endValue (JNumber (rev acc)) stk res)); try now left.
          now apply stepAfter_inArrayText.
        - exfalso. destruct stk as [|[done|done|done key] stk];
            cbn in Hs', Hr'; discriminate. }
      destruct st;
        repeat match goal with
               | |- inArrayText (if ?b then _ else _) => destruct b
               end; try exact Hfin; try (now left); now (right; left).
    + destruct rest as [|x [|y rest]]; try now left.
      * destruct (Ascii.eqb c x); [|now left].
        apply endValue_inArrayText. now left.
      * destruct (Ascii.eqb c x); [now right; left|now left].
  - destruct s as [m stk res]. cbn in Hm, Hs, Hr. subst.
    unfold scanStep, stepAfter. cbn [smode sstack sresult].
    destruct (isJSONSpace c); [|now left].
    right; right. cbn. eauto.
Qed.

Lemma fold_scanStep_inArrayText (text : bytes) :
  forall s, inArrayText s -> inArrayText (fold_left scanStep text s).
Proof.
  induction text as [|c text IH]; intros s H; [exact H|].
  cbn [fold_left]. apply IH. now apply scanStep_inArrayText.
Qed.

Lemma scanEOF_inArrayText (s : scanner) (v : json) :
  inArrayText s -> scanEOF s = Some v -> exists elems, v = JArray elems.
Proof.
  intros [->|[H|(Hm & Hs & elems & Hr)]] He.
  - discriminate He.
  - exfalso. destruct s as [m stk res]. cbn [sstack] in H.
    assert (Hne : stk <> []).
    { intros ->. destruct H as ([|? ?] & d & E); discriminate. }
    unfold scanEOF in He. cbn [smode sstack sresult] in He.
    destruct m; try (destruct stk; [congruence|discriminate He]);
      try discriminate He.
    destruct st; try discriminate He;
      (destruct (endValue_inArrayText (JNumber (rev acc)) stk res (or_introl H))
         as [E|[H'|(_ & Hs' & e' & Hr')]];
       [ rewrite E in He; discriminate He
       | destruct (endValue (JNumber (rev acc)) stk res) as [m' stk' res'];
         cbn [sstack smode sresult] in *;
         destruct m'; try discriminate He;
         destruct stk'; [destruct H' as ([|? ?] & d & E); discriminate
                        |discriminate He]
       | destruct stk as [|[done|done|done key] stk]; cbn in Hs', Hr';
         congruence ]).
  - destruct s as [m stk res]. cbn in Hm, Hs, Hr. subst.
    cbn in He. injection He as <-. eauto.
Qed.

Lemma jsonParse_bracket (text : bytes) (v : json) :
  hasPrefix text (B "[") = true -> jsonParse text = Some v ->
  exists elems, v = JArray elems.
Proof.
  intros Hp Hv. apply hasPrefix_true in Hp. cbn [B list_ascii_of_string app length] in Hp.
  rewrite Hp in Hv. unfold jsonParse in Hv. cbn [fold_left] in Hv.
  apply (scanEOF_inArrayText _ v) in Hv; [assumption|].
  apply fold_scanStep_inArrayText. right; left. now exists [], [].
Qed.

(** C7, as the code has it: the sniffer says yes exactly when the trimmed
    input has 10 bytes or more, starts with an opening and ends with a
    closing bracket, and is the JSON text of an array each element of which
    is [null] or an array each element of which is [null] or an integer
    literal of the signed 64-bit range.  It says yes to the matrix of the
    tests and no to the two other inputs. *)
Theorem sniffer_accepts_decodable_arrays :
  (forall input,
     asciiOnly input ->
     looksLikeRawCharactersJSON input = true <->
     (10 <= length (TrimSpace input) /\
      hasPrefix (TrimSpace input) (B "[") = true /\
      hasSuffix (TrimSpace input) (B "]") = true /\
      exists rows, jsonParse (TrimSpace input) = Some (JArray rows) /\
                   forallb isDecodableRow rows = true))
  /\ looksLikeRawCharactersJSON (B " [[1,2],[3,4]] ") = true
  /\ looksLikeRawCharactersJSON (B "hello [1,2]") = false
  /\ looksLikeRawCharactersJSON (Q "{'characters':[[1]]}") = false.
Proof.
  split; [|repeat split; reflexivity].
  intros input _. unfold looksLikeRawCharactersJSON.
  set (t := TrimSpace input).
  destruct (Nat.ltb_spec (length t) 10) as [Hlt|Hge].
  { split; [discriminate|]. intros (H & _). lia. }
  destruct (hasPrefix t (B "[")) eqn:Hp; cbn [negb orb].
  2:{ split; [discriminate|]. now intros (_ & H & _). }
  destruct (hasSuffix t (B "]")) eqn:Hs; cbn [negb].
  2:{ split; [discriminate|]. now intros (_ & _ & H & _). }
  unfold unmarshalMatrix.
  destruct (jsonParse t) as [v|] eqn:Hv.
  - destruct (jsonParse_bracket t v Hp Hv) as [rows ->].
    pose proof (decodeMatrix_isSome [] (JArray rows)) as Hd.
    cbn [isDecodableMatrix] in Hd.
    destruct (decodeMatrix [] (JArray rows)); cbn [isSome] in Hd.
    + split; [|reflexivity]. intros _. repeat split; auto. eauto.
    + split; [discriminate|].
      intros (_ & _ & _ & rows' & [= <-] & Hr). congruence.
  - split; [discriminate|]. now intros (_ & _ & _ & rows & H & _).
Qed.

Lemma sniffer_accepts_decodable_arrays_witness :
  looksLikeRawCharactersJSON (B "  [[72,69],[0,0]]  ") = true.
Proof.
  apply (proj1 sniffer_accepts_decodable_arrays (B "  [[72,69],[0,0]]  ") eq_refl).
  repeat split; try reflexivity.
  - cbn. lia.
  - eexists. split; reflexivity.
Defined.

(** C7 as stated fails: [null] is let through where a row is expected, so
    an array that holds no array of integers is taken for a matrix. *)
Lemma sniffer_null_rows_counterexample :
  looksLikeRawCharactersJSON (B "[null,null]") = true /\
  jsonParse (TrimSpace (B "[null,null]")) = Some (JArray [JNull; JNull]) /\
  isIntegerMatrix (JArray [JNull; JNull]) = false.
Proof. repeat split; reflexivity. Qed.

(** ** The escape decoder *)

Lemma decodeEscapes_fallback (input : bytes) :
  UnquoteQuoted input = None -> decodeEscapes input = input.
Proof. intros H. unfold decodeEscapes. now rewrite H. Qed.

Lemma unquoteBody_plain_app (a r : bytes) :
  forallb plainByte a = true ->
  unquoteBody 0 (a ++ r) =
    match unquoteBody 0 r with Some out => Some (a ++ out) | None => None end.
Proof.
  induction a as [|c a IH]; intros H.
  - cbn [app]. now destruct (unquoteBody 0 r).
  - cbn [forallb] in H. apply andb_true_iff in H as [Hc H].
    unfold plainByte in Hc. repeat (apply andb_true_iff in Hc as [Hc ?]).
    cbn [app unquoteBody].
    repeat match goal with
           | E : negb ?b = true |- _ => apply negb_true_iff in E; rewrite E
           end.
    rewrite Hc, (IH H). now destruct (unquoteBody 0 r).
Qed.

(** Plain text with line-feed escapes in it is decoded, escape by escape. *)
Lemma decodeEscapes_newline (a r : bytes) :
  forallb plainByte a = true ->
  decodeEscapes (a ++ B "\n" ++ r) =
    match UnquoteQuoted r with
    | Some out => a ++ ["010"] ++ out
    | None => a ++ B "\n" ++ r
    end.
Proof.
  intros H. unfold decodeEscapes, UnquoteQuoted.
  rewrite (unquoteBody_plain_app a _ H).
  cbn [B list_ascii_of_string app unquoteBody].
  cbn [Ascii.eqb Bool.eqb andb].
  now destruct (unquoteBody 0 r).
Qed.

Lemma decodeEscapes_plain (a : bytes) :
  forallb plainByte a = true -> decodeEscapes a = a.
Proof.
  intros H. unfold decodeEscapes, UnquoteQuoted.
  rewrite <- (app_nil_r a) at 1. rewrite (unquoteBody_plain_app a [] H).
  cbn. now rewrite app_nil_r.
Qed.

(** C8 at an input with a double quote in it: the line-feed escape, which
    is decoded in the same text without the quotes, is left as two bytes,
    and so is every other escape: [strconv.Unquote] rejects the literal
    for the quote, and the input comes back as it was. *)
Theorem decodeEscapes_gives_up_on_quote :
  decodeEscapes (B "say Hello\nworld") = B "say Hello" ++ ["010"] ++ B "world"
  /\ UnquoteQuoted (Q "say 'Hello'\nworld") = None
  /\ decodeEscapes (Q "say 'Hello'\nworld") = Q "say 'Hello'\nworld".
Proof. repeat split; reflexivity. Qed.

(* ================================================================== *)
(** * Further properties of the code *)

(** ** The alias token resolver *)

(** X1: a text without an opening brace comes out as it went in. *)
Theorem substitute_plain_identity (s : bytes) :
  ~ In "{" s -> substituteTemplateCharacterAliases s = s.
Proof.
  intros H. rewrite substitute_scan.
  rewrite <- (app_nil_r s) at 1.
  now rewrite scan_plain_prefix, scan_nil, app_nil_r.
Qed.

Lemma substitute_plain_identity_witness :
  substituteTemplateCharacterAliases (B "Hello} world") = B "Hello} world".
Proof.
  apply substitute_plain_identity.
  intros H; repeat (destruct H as [H|H]; [discriminate H|]); exact H.
Defined.

(** X2: a token whose trimmed interior is an integer keeps that integer as
    it is written, whatever its value. *)
Theorem number_token_kept (pre interior rest : bytes) (n : Z) :
  asciiOnly (pre ++ B "{" ++ interior ++ B "}" ++ rest) ->
  scannedPrefix pre ->
  ~ In "}" interior ->
  hasPrefix interior (B "{") = false ->
  Atoi (TrimSpace interior) = Some n ->
  substituteTemplateCharacterAliases (pre ++ B "{" ++ interior ++ B "}" ++ rest)
  = substituteTemplateCharacterAliases pre
      ++ B "{" ++ TrimSpace interior ++ B "}"
      ++ substituteTemplateCharacterAliases rest.
Proof.
  intros _ Hpre Hin Hp Ha.
  rewrite !substitute_scan, scan_scannedPrefix, scan_token by assumption.
  unfold rewriteTemplateToken. rewrite Ha.
  destruct (TrimSpace interior); [discriminate Ha|].
  now rewrite <- !app_assoc.
Qed.

Lemma number_token_kept_witness :
  substituteTemplateCharacterAliases (B "{green} say { +0123 } {green}")
  = B "{66} say {+0123} {66}".
Proof.
  apply (number_token_kept (B "{green} say ") (B " +0123 ") (B " {green}") 123);
    try reflexivity.
  - exact scanned_green_say.
  - intros H; repeat (destruct H as [H|H]; [discriminate H|]); exact H.
Defined.

(** X3: a single opening brace that is never closed stops the resolver:
    the rest of the input, from that brace on, is copied as it is. *)
Theorem open_token_copied (pre s : bytes) :
  asciiOnly (pre ++ B "{" ++ s) ->
  scannedPrefix pre ->
  hasPrefix s (B "{") = false ->
  ~ In "}" s ->
  substituteTemplateCharacterAliases (pre ++ B "{" ++ s)
  = substituteTemplateCharacterAliases pre ++ B "{" ++ s.
Proof.
  intros _ Hpre Hp Hin.
  rewrite !substitute_scan, scan_scannedPrefix by assumption.
  cbn [B list_ascii_of_string app].
  rewrite scan_token_open; [reflexivity|assumption|].
  now apply indexByte_None.
Qed.

Lemma open_token_copied_witness :
  substituteTemplateCharacterAliases (B "{green} say {green {{x")
  = B "{66} say {green {{x".
Proof.
  apply (open_token_copied (B "{green} say ") (B "green {{x"));
    try reflexivity.
  - exact scanned_green_say.
  - intros H; repeat (destruct H as [H|H]; [discriminate H|]); exact H.
Defined.

(** X4: the resolver works piece by piece: behind a prefix made of plain
    bytes, closed tokens and closed spans, the rest is resolved as if it
    stood alone. *)
Theorem substitute_app (pre x : bytes) :
  asciiOnly (pre ++ x) ->
  scannedPrefix pre ->
  substituteTemplateCharacterAliases (pre ++ x)
  = substituteTemplateCharacterAliases pre
      ++ substituteTemplateCharacterAliases x.
Proof.
  intros _ Hpre. rewrite !substitute_scan. now apply scan_scannedPrefix.
Qed.

Lemma substitute_app_witness :
  substituteTemplateCharacterAliases (B "{green} say " ++ B "{red}{")
  = B "{66} say " ++ B "{63}{".
Proof.
  apply (substitute_app (B "{green} say ") (B "{red}{") eq_refl scanned_green_say).
Defined.

(** X5: a token is rewritten to itself between braces, or to a character
    code from 0 to 71 between braces: nothing else is ever put there. *)
Theorem rewrite_token_or_code (token : bytes) :
  rewriteTemplateToken token = B "{" ++ token ++ B "}"
  \/ exists code, (0 <= code <= 71)%Z /\
       aliasLookup templateCharacterAliases (canonicalAlias token) = Some code /\
       rewriteTemplateToken token = B "{" ++ formatInt code ++ B "}".
Proof.
  unfold rewriteTemplateToken.
  destruct token as [|c l] eqn:E; [now left|]. rewrite <- E.
  destruct (Atoi token); [now left|].
  destruct (aliasLookup templateCharacterAliases (canonicalAlias token))
    as [code|] eqn:Hl; [|now left].
  right. exists code. split; [|now split].
  destruct (aliasLookup_In _ _ _ Hl) as [k Hk].
  assert (Hall : forallb (fun e => (0 <=? snd e) && (snd e <=? 71))%Z
                   templateCharacterAliases = true) by reflexivity.
  pose proof (proj1 (forallb_forall _ _) Hall _ Hk) as Hc. cbn [snd] in Hc.
  apply andb_true_iff in Hc as [H0 H1]. lia.
Qed.

(** *** The canonical form of a token *)

Lemma normByte_idem (c : ascii) : normByte (normByte c) = normByte c.
Proof. by_byte c. Qed.

Lemma fieldsFrom_field (f r cur : bytes) :
  (forall c, In c f -> isSpace c = false) ->
  fieldsFrom cur (f ++ r) = fieldsFrom (rev f ++ cur) r.
Proof.
  intros Hf. revert cur; induction f as [|c f IH]; intros cur; [reflexivity|].
  cbn [app fieldsFrom rev]. rewrite (Hf c) by now left.
  rewrite IH by (intros x Hx; apply Hf; now right).
  now rewrite <- app_assoc.
Qed.

(** Every field is a run of bytes that are not white space, and is not
    empty. *)
Lemma fieldsFrom_fields (s : bytes) : forall cur f,
  (forall c, In c cur -> isSpace c = false) ->
  In f (fieldsFrom cur s) ->
  f <> [] /\ (forall c, In c f -> isSpace c = false) /\
  (forall c, In c f -> In c cur \/ In c s).
Proof.
  assert (Hrev : forall cur : bytes, cur <> [] -> rev cur <> []).
  { intros cur Hne E. apply Hne. now rewrite <- (rev_involutive cur), E. }
  induction s as [|x s IH]; intros cur f Hcur Hin.
  - destruct cur as [|y cur]; [destruct Hin|].
    destruct Hin as [<-|[]]. split; [now apply Hrev|].
    split; intros c Hc; apply in_rev in Hc; auto.
  - cbn [fieldsFrom] in Hin. destruct (isSpace x) eqn:Hx.
    + assert (Hrest : In f (fieldsFrom [] s) ->
                f <> [] /\ (forall c, In c f -> isSpace c = false) /\
                (forall c, In c f -> In c cur \/ In c (x :: s))).
      { intros H. destruct (IH [] f) as (H1 & H2 & H3); [intros c []|exact H|].
        repeat split; auto. intros c Hc. destruct (H3 c Hc) as [[]|H4].
        right; now right. }
      destruct cur as [|y cur]; [now apply Hrest|].
      destruct Hin as [<-|Hin]; [|now apply Hrest].
      split; [now apply Hrev|].
      split; intros c Hc; apply in_rev in Hc; auto.
    + destruct (IH (x :: cur) f) as (H1 & H2 & H3); [|exact Hin|].
      { intros c [<-|Hc]; auto. }
      repeat split; auto. intros c Hc.
      destruct (H3 c Hc) as [[<-|H4]|H4]; [right; now left|now left|right; now right].
Qed.

Lemma Fields_Join (fs : list bytes) :
  (forall f, In f fs -> f <> [] /\ forall c, In c f -> isSpace c = false) ->
  Fields (Join fs (B " ")) = fs.
Proof.
  unfold Fields. induction fs as [|e fs IH]; intros H; [reflexivity|].
  destruct (H e (or_introl eq_refl)) as [Hne He].
  destruct fs as [|e' fs].
  - cbn [Join]. rewrite <- (app_nil_r e) at 1.
    rewrite fieldsFrom_field by auto. rewrite app_nil_r. cbn [fieldsFrom].
    destruct (rev e) eqn:E.
    + exfalso. apply Hne. now rewrite <- (rev_involutive e), E.
    + now rewrite <- E, rev_involutive.
  - change (Join (e :: e' :: fs) (B " "))
      with (e ++ " "%char :: Join (e' :: fs) (B " ")).
    rewrite fieldsFrom_field by auto. rewrite app_nil_r. cbn [fieldsFrom].
    change (isSpace " ") with true. cbv iota.
    rewrite IH by (intros f Hf; apply H; now right).
    destruct (rev e) eqn:E.
    + exfalso. apply Hne. now rewrite <- (rev_involutive e), E.
    + now rewrite <- E, rev_involutive.
Qed.

Lemma In_Join (fs : list bytes) (c : ascii) :
  In c (Join fs (B " ")) -> c = " "%char \/ exists f, In f fs /\ In c f.
Proof.
  induction fs as [|e fs IH]; [intros []|].
  destruct fs as [|e' fs].
  - cbn [Join]. intros H. right. exists e. split; [now left|exact H].
  - change (Join (e :: e' :: fs) (B " "))
      with (e ++ " "%char :: Join (e' :: fs) (B " ")).
    intros H. apply in_app_or in H as [H|[H|H]].
    + right. exists e. split; [now left|exact H].
    + now left.
    + destruct (IH H) as [->|[f [Hf Hc]]]; [now left|].
      right. exists f. split; [now right|exact Hc].
Qed.

Lemma trimmed_Join (fs : list bytes) :
  (forall f, In f fs -> f <> [] /\ forall c, In c f -> isSpace c = false) ->
  TrimSpace (Join fs (B " ")) = Join fs (B " ").
Proof.
  intros H. apply trimmed_TrimSpace. unfold trimmed.
  assert (Hhead : forall s : bytes, s <> [] ->
            (forall c, In c s -> isSpace c = false) ->
            forall r, trimLeft (s ++ r) = s ++ r).
  { intros [|c s] Hne Hs r; [congruence|]. cbn [app trimLeft].
    now rewrite (Hs c) by now left. }
  split.
  - destruct fs as [|e fs]; [reflexivity|].
    destruct (H e (or_introl eq_refl)) as [Hne He].
    destruct fs as [|e' fs].
    + cbn [Join]. rewrite <- (app_nil_r e). now apply Hhead.
    + change (Join (e :: e' :: fs) (B " "))
        with (e ++ " "%char :: Join (e' :: fs) (B " ")).
      now apply Hhead.
  - induction fs as [|e fs IH]; [reflexivity|].
    destruct (H e (or_introl eq_refl)) as [Hne He].
    destruct fs as [|e' fs].
    + cbn [Join]. rewrite <- (app_nil_r (rev e)). apply Hhead.
      * intros E. apply Hne. now rewrite <- (rev_involutive e), E.
      * intros c Hc. apply He. now apply in_rev.
    + change (Join (e :: e' :: fs) (B " "))
        with (e ++ " "%char :: Join (e' :: fs) (B " ")).
      assert (IH' := IH (fun f Hf => H f (or_intror Hf))).
      rewrite rev_app_distr. cbn [rev]. rewrite <- app_assoc.
      destruct (rev (Join (e' :: fs) (B " "))) as [|c r] eqn:E.
      * exfalso. destruct (H e' (or_intror (or_introl eq_refl))) as [Hne' _].
        apply (f_equal (@rev ascii)) in E. rewrite rev_involutive in E.
        destruct e'; [congruence|]. destruct fs; discriminate E.
      * cbn [app trimLeft] in *. destruct (isSpace c); [|reflexivity].
        exfalso. destruct (trimLeft_split r) as [l [Hr _]].
        apply (f_equal (@length ascii)) in IH'. rewrite Hr in IH' at 2.
        cbn [length] in IH'. rewrite length_app in IH'. lia.
Qed.

(** X6: the canonical form of a token is in canonical form already: taking
    it a second time changes nothing. *)
Theorem canonicalAlias_idempotent (token : bytes) :
  asciiOnly token ->
  canonicalAlias (canonicalAlias token) = canonicalAlias token.
Proof.
  intros _. unfold canonicalAlias. rewrite !normalise_map.
  set (x := map normByte (TrimSpace token)).
  assert (Hfs : forall f, In f (Fields x) ->
            f <> [] /\ forall c, In c f -> isSpace c = false).
  { intros f Hf. destruct (fieldsFrom_fields x [] f) as (H1 & H2 & _);
      [intros c []|exact Hf|]. now split. }
  rewrite trimmed_Join by exact Hfs.
  assert (Hmap : map normByte (Join (Fields x) (B " ")) = Join (Fields x) (B " ")).
  { rewrite <- (map_id (Join (Fields x) (B " "))) at 2.
    apply map_ext_in. intros c Hc.
    destruct (In_Join _ _ Hc) as [->|[f [Hf Hcf]]]; [reflexivity|].
    destruct (fieldsFrom_fields x [] f) as (_ & _ & H3); [intros y []|exact Hf|].
    destruct (H3 c Hcf) as [[]|Hx]. unfold x in Hx.
    apply in_map_iff in Hx as [y [<- _]]. apply normByte_idem. }
  rewrite Hmap. now rewrite Fields_Join.
Qed.

Lemma canonicalAlias_idempotent_witness :
  canonicalAlias (canonicalAlias (B "  Question__MARK-- ")) = B "question mark".
Proof.
  rewrite (canonicalAlias_idempotent (B "  Question__MARK-- ") eq_refl).
  reflexivity.
Defined.

(** ** Integers as text *)

Lemma parseDigits_uint_acc (d : Decimal.uint) : forall acc : positive,
  parseDigits (Z.pos acc) (list_ascii_of_string (NilEmpty.string_of_uint d))
  = Some (Z.pos (Pos.of_uint_acc d acc)).
Proof.
  induction d; intros acc; cbn [NilEmpty.string_of_uint list_ascii_of_string
                                 parseDigits Pos.of_uint_acc];
    [reflexivity|..];
    (change (isDigit _) with true; cbv iota;
     match goal with
     | |- parseDigits ?a _ = _ =>
         match goal with
         | |- _ = Some (Z.pos (Pos.of_uint_acc _ ?b)) =>
             replace a with (Z.pos b)
               by (match goal with
                   | |- context [digitVal ?c] =>
                       let v := eval vm_compute in (digitVal c) in
                       change (digitVal c) with v
                   end; lia)
         end
     end; apply IHd).
Qed.

Lemma parseDigits_uint (d : Decimal.uint) :
  parseDigits 0 (list_ascii_of_string (NilEmpty.string_of_uint d))
  = Some (Z.of_N (Pos.of_uint d)).
Proof.
  induction d; cbn [NilEmpty.string_of_uint list_ascii_of_string
                    parseDigits Pos.of_uint];
    [reflexivity|exact IHd|..];
    (change (isDigit _) with true; cbv iota;
     match goal with
     | |- parseDigits ?a _ = Some (Z.of_N (N.pos (Pos.of_uint_acc _ ?b))) =>
         change a with (Z.pos b)
     end; apply parseDigits_uint_acc).
Qed.

Lemma uint_bytes_head (p : positive) :
  exists c r,
    list_ascii_of_string (NilEmpty.string_of_uint (Pos.to_uint p)) = c :: r
    /\ isDigit c = true.
Proof.
  pose proof (DecimalPos.Unsigned.to_uint_nonnil p) as Hne.
  destruct (Pos.to_uint p); [congruence|..];
    cbn [NilEmpty.string_of_uint list_ascii_of_string];
    eexists; eexists; (split; [reflexivity|reflexivity]).
Qed.

Lemma parseInt64_digits (c : ascii) (r : bytes) :
  isDigit c = true ->
  parseInt64 (c :: r) =
    match parseDigits 0 (c :: r) with
    | None => None
    | Some n =>
        if ((- 2 ^ 63 <=? n) && (n <=? 2 ^ 63 - 1))%Z then Some n else None
    end.
Proof.
  intros H.
  destruct c as [[] [] [] [] [] [] [] []];
    try (vm_compute in H; discriminate H); reflexivity.
Qed.

Lemma parseInt64_formatInt (n : Z) :
  (- 2 ^ 63 <= n <= 2 ^ 63 - 1)%Z -> parseInt64 (formatInt n) = Some n.
Proof.
  intros Hn. unfold formatInt.
  destruct n as [|p|p]; [reflexivity|..]; cbn [Z.to_int NilEmpty.string_of_int].
  - destruct (uint_bytes_head p) as (c & r & E & Hc).
    pose proof (parseDigits_uint (Pos.to_uint p)) as Hd.
    rewrite DecimalPos.Unsigned.of_to in Hd. cbn [Z.of_N] in Hd.
    rewrite E in *.
    rewrite parseInt64_digits, Hd by assumption.
    match goal with
    | |- (if ?b then _ else _) = _ => replace b with true; [reflexivity|]
    end.
    symmetry. apply andb_true_iff. split; apply Z.leb_le; lia.
  - destruct (uint_bytes_head p) as (c & r & E & Hc).
    pose proof (parseDigits_uint (Pos.to_uint p)) as Hd.
    rewrite DecimalPos.Unsigned.of_to in Hd. cbn [Z.of_N] in Hd.
    cbn [list_ascii_of_string]. rewrite E in *.
    unfold parseInt64. rewrite Hd.
    match goal with
    | |- (if ?b then _ else _) = _ => replace b with true; [reflexivity|]
    end.
    symmetry. apply andb_true_iff. split; apply Z.leb_le; lia.
Qed.

(** X7: an integer of the signed 64-bit range, printed by the verb [%d],
    is read back by [strconv.Atoi] as the same integer. *)
Theorem Atoi_formatInt (n : Z) :
  (- 2 ^ 63 <= n <= 2 ^ 63 - 1)%Z -> Atoi (formatInt n) = Some n.
Proof. apply parseInt64_formatInt. Qed.

Lemma Atoi_formatInt_witness :
  Atoi (formatInt (-9223372036854775808)) = Some (-9223372036854775808)%Z.
Proof. apply (Atoi_formatInt (-9223372036854775808)). lia. Defined.

(** ** Matrices as JSON *)

Lemma matrixJSON_encodes (m : list (list Z)) :
  forallb (forallb isInt64) m = true -> encodesMatrix (matrixJSON m) m.
Proof.
  intros H. exists (map (fun row => JArray (map (fun n => JNumber (formatInt n)) row)) m).
  split; [reflexivity|].
  induction m as [|row m IH]; [constructor|].
  cbn [forallb] in H. apply andb_true_iff in H as [Hrow H].
  cbn [map]. constructor; [|now apply IH].
  exists (map (fun n => JNumber (formatInt n)) row). split; [reflexivity|].
  clear -Hrow. induction row as [|n row IH]; [constructor|].
  cbn [forallb] in Hrow. apply andb_true_iff in Hrow as [Hn Hrow].
  cbn [map]. constructor; [|now apply IH].
  exists (formatInt n). split; [reflexivity|].
  apply parseInt64_formatInt. unfold isInt64 in Hn.
  apply andb_true_iff in Hn as [H1 H2]. apply Z.leb_le in H1, H2. lia.
Qed.

(** X8: the JSON [SendCharacters] builds for a matrix of Go integers is
    decoded, by the decoding of [FormatMessage] and [parseCharacters], to
    the same matrix, bare or wrapped in an object under [characters], and
    whatever the variable decoded into held before. *)
Theorem matrix_json_round_trip (m cur : list (list Z)) :
  forallb (forallb isInt64) m = true ->
  decodeMatrix cur (matrixJSON m) = Some m
  /\ decodeResponse (JObject [(B "characters", matrixJSON m)]) = Some m.
Proof.
  intros H. pose proof (matrixJSON_encodes m H) as He. split.
  - now apply decodeMatrix_encodes.
  - cbn [decodeResponse decodeCharactersField].
    change (matchesField (B "characters") (B "characters")) with true. cbv iota.
    now rewrite (decodeMatrix_encodes _ m [] He).
Qed.

Lemma matrix_json_round_trip_witness :
  decodeMatrix [[9; 9; 9]]%Z (matrixJSON [[0; 71]; []; [-5]]%Z)
  = Some [[0; 71]; []; [-5]]%Z.
Proof.
  apply (proj1 (matrix_json_round_trip [[0; 71]; []; [-5]]%Z [[9; 9; 9]]%Z eq_refl)).
Defined.

(** ** The escape decoder, piece by piece *)

Lemma unquoteBody_no_backslash (s : bytes) :
  forallb isAscii s = true -> ~ In "\"%char s ->
  unquoteBody 0 s = Some s \/ unquoteBody 0 s = None.
Proof.
  induction s as [|c s IH]; intros Ha Hn; [now left|].
  cbn [forallb] in Ha. apply andb_true_iff in Ha as [Hc Ha].
  assert (Hb : Ascii.eqb c "\" = false).
  { apply Ascii.eqb_neq. intros ->. apply Hn. now left. }
  cbn [unquoteBody]. rewrite Hb, Hc.
  destruct (Ascii.eqb c "034"); [now right|].
  destruct (Ascii.eqb c "010"); [now right|].
  destruct (IH Ha) as [-> | ->]; [intros H; apply Hn; now right|now left|now right].
Qed.

(** X9: a text without a backslash is never changed by the escape
    decoder, whatever else it holds. *)
Theorem decodeEscapes_without_backslash (input : bytes) :
  asciiOnly input -> ~ In "\"%char input -> decodeEscapes input = input.
Proof.
  intros Ha Hn. unfold decodeEscapes, UnquoteQuoted.
  now destruct (unquoteBody_no_backslash input Ha Hn) as [-> | ->].
Qed.

Lemma decodeEscapes_without_backslash_witness :
  decodeEscapes (Q "say 'hi' {green}") = Q "say 'hi' {green}".
Proof.
  apply decodeEscapes_without_backslash; [reflexivity|].
  intros H; repeat (destruct H as [H|H]; [discriminate H|]); exact H.
Defined.

Lemma unquoteBody_app (b : bytes) : forall (n : nat) (a a' : bytes),
  length a <= n -> forallb isAscii a = true ->
  unquoteBody 0 a = Some a' ->
  unquoteBody 0 (a ++ b) =
    match unquoteBody 0 b with Some b' => Some (a' ++ b') | None => None end.
Proof.
  induction n as [|n IH]; intros a a' Hlen Ha H.
  { destruct a; [|cbn in Hlen; lia]. cbn in H. injection H as <-.
    cbn [app]. now destruct (unquoteBody 0 b). }
  destruct a as [|c s].
  { cbn in H. injection H as <-. cbn [app]. now destruct (unquoteBody 0 b). }
  assert (step : forall out r a0, length r <= n -> forallb isAscii r = true ->
            match unquoteBody 0 r with Some x => Some (out ++ x) | None => None end
            = Some a0 ->
            match unquoteBody 0 (r ++ b) with Some x => Some (out ++ x) | None => None end
            = match unquoteBody 0 b with Some b' => Some (a0 ++ b') | None => None end).
  { intros out r a0 Hr Har E.
    destruct (unquoteBody 0 r) as [x|] eqn:Ex; [|discriminate].
    injection E as <-. rewrite (IH r x Hr Har Ex).
    destruct (unquoteBody 0 b); [now rewrite app_assoc|reflexivity]. }
  cbn [forallb] in Ha. apply andb_true_iff in Ha as [Hc Ha].
  cbn [app]. cbn [unquoteBody] in H |- *. rewrite Hc in H |- *.
  revert H.
  destruct (Ascii.eqb c "034"); [discriminate|].
  destruct (Ascii.eqb c "010"); [discriminate|].
  destruct (Ascii.eqb c "\").
  2:{ intros H. emit_step step H; [cbn [length] in Hlen; lia|assumption|assumption]. }
  destruct s as [|e r]; [discriminate|].
  cbn [forallb] in Ha. apply andb_true_iff in Ha as [He Ha].
  cbn [length] in Hlen. cbn [app].
  repeat match goal with
         | |- (if Ascii.eqb e ?k then _ else _) = Some _ -> _ =>
             destruct (Ascii.eqb e k);
             [ first
                 [ intros H; emit_step step H; [lia|assumption|assumption]
                 | idtac ]
             | ]
         end.
  - destruct r as [|h1 [|h2 r']]; try discriminate.
    cbn [forallb] in Ha. repeat (apply andb_true_iff in Ha as [? Ha]).
    cbn [length] in Hlen. cbn [app].
    destruct (hexNumber 0 [h1; h2]); [|discriminate].
    intros Hq. emit_step step Hq; [lia|assumption|assumption].
  - destruct r as [|h1 [|h2 [|h3 [|h4 r']]]]; try discriminate.
    cbn [forallb] in Ha. repeat (apply andb_true_iff in Ha as [? Ha]).
    cbn [length] in Hlen. cbn [app].
    destruct (hexNumber 0 [h1; h2; h3; h4]); [|discriminate].
    destruct (validRune z); [|discriminate].
    intros Hq. emit_step step Hq; [lia|assumption|assumption].
  - destruct r as [|h1 [|h2 [|h3 [|h4 [|h5 [|h6 [|h7 [|h8 r']]]]]]]];
      try discriminate.
    cbn [forallb] in Ha. repeat (apply andb_true_iff in Ha as [? Ha]).
    cbn [length] in Hlen. cbn [app].
    destruct (hexNumber 0 [h1; h2; h3; h4; h5; h6; h7; h8]); [|discriminate].
    destruct (validRune z); [|discriminate].
    intros Hq. emit_step step Hq; [lia|assumption|assumption].
  - destruct (octVal e); [|discriminate].
    destruct r as [|o1 [|o2 r']]; try discriminate.
    cbn [forallb] in Ha. repeat (apply andb_true_iff in Ha as [? Ha]).
    cbn [length] in Hlen. cbn [app].
    destruct (octVal o1); [|discriminate].
    destruct (octVal o2); [|discriminate].
    match goal with
    | |- (if ?x then _ else _) = Some _ -> _ => destruct x; [discriminate|]
    end.
    intros Hq. emit_step step Hq; [lia|assumption|assumption].
Qed.

(** X10: the escape decoder works on the whole text or not at all: behind
    a part that decodes, a rest that decodes is decoded too, and a rest
    that does not leaves the escapes of the first part as they are
    written. *)
Theorem decodeEscapes_app (a a' b : bytes) :
  asciiOnly a ->
  UnquoteQuoted a = Some a' ->
  decodeEscapes (a ++ b) =
    match UnquoteQuoted b with
    | Some b' => a' ++ b'
    | None => a ++ b
    end.
Proof.
  intros Ha H. unfold decodeEscapes, UnquoteQuoted in *.
  rewrite (unquoteBody_app b (length a) a a' (le_n _) Ha H).
  now destruct (unquoteBody 0 b).
Qed.

Lemma decodeEscapes_app_witness :
  decodeEscapes (B "one\ntwo" ++ B "\x7bred\x7d") = B "one" ++ ["010"] ++ B "two{red}"
  /\ decodeEscapes (B "one\ntwo" ++ B "\q") = B "one\ntwo\q".
Proof.
  split.
  - apply (decodeEscapes_app (B "one\ntwo") (B "one" ++ ["010"] ++ B "two")
             (B "\x7bred\x7d") eq_refl eq_refl).
  - apply (decodeEscapes_app (B "one\ntwo") (B "one" ++ ["010"] ++ B "two")
             (B "\q") eq_refl eq_refl).
Defined.

(** ** The options of the commands *)

Lemma ToLower_nil (s : bytes) : ToLower s = [] <-> s = [].
Proof. destruct s; split; intros H; try reflexivity; discriminate H. Qed.

(** X11: the model is taken from the flag when the flag is not blank, and
    the environment is then not looked at; with a blank flag the variable
    [VESTABOARD_MODEL] decides as the flag would, and with both blank the
    model is [flagship].  What comes out is [flagship] or [note]. *)
Theorem resolveModel_flag_then_env (getenv : bytes -> bytes) (value : bytes) :
  asciiOnly value -> asciiOnly (getenv envVestaboardModel) ->
  (TrimSpace value <> [] ->
   forall getenv', resolveModel getenv value = resolveModel getenv' value)
  /\ (TrimSpace value = [] ->
      forall m, resolveModel getenv value = Done m <->
                resolveModel (fun _ => []) (getenv envVestaboardModel) = Done m)
  /\ (TrimSpace value = [] -> TrimSpace (getenv envVestaboardModel) = [] ->
      resolveModel getenv value = Done (B "flagship"))
  /\ (forall m, resolveModel getenv value = Done m ->
                m = B "flagship" \/ m = B "note").
Proof.
  intros _ _. unfold resolveModel. split; [|split; [|split]].
  - intros Hv getenv'.
    destruct (ToLower (TrimSpace value)) eqn:E; [|reflexivity].
    exfalso. apply Hv. now apply ToLower_nil.
  - intros Hv m. rewrite Hv. cbn [ToLower map].
    destruct (ToLower (TrimSpace (getenv envVestaboardModel))) as [|x l];
      [reflexivity|].
    destruct (bytesEqb (x :: l) (B "flagship") || bytesEqb (x :: l) (B "note"));
      [reflexivity|].
    split; intros H; discriminate H.
  - intros Hv He. rewrite Hv, He. reflexivity.
  - intros m H.
    match type of H with
    | (if bytesEqb ?x _ || _ then _ else _) = _ => set (model := x) in *
    end.
    accepted_name bytesEqb_eq H; try discriminate H; injection H as <-; auto.
Qed.

Lemma resolveModel_flag_then_env_witness :
  resolveModel (fun _ => B "note") (B " FlagShip ")
  = resolveModel (fun _ => B "bogus") (B " FlagShip ").
Proof.
  apply (proj1 (resolveModel_flag_then_env (fun _ => B "note") (B " FlagShip ")
                  eq_refl eq_refl)).
  discriminate.
Defined.

(** X12: what [resolveAlign] and [resolveJustify] accept comes out as one
    of the names of the compose API, in lower case and trimmed, and such a
    name is accepted as it is; a blank value stands for [center]. *)
Theorem layout_options_closed (value : bytes) :
  asciiOnly value ->
  (forall a, resolveAlign value = Done a ->
     In a [B "top"; B "center"; B "bottom"] /\ resolveAlign a = Done a)
  /\ (forall j, resolveJustify value = Done j ->
        In j [B "left"; B "center"; B "right"; B "justified"]
        /\ resolveJustify j = Done j)
  /\ (TrimSpace value = [] ->
      resolveAlign value = Done (B "center")
      /\ resolveJustify value = Done (B "center")).
Proof.
  intros _. split; [|split].
  - intros a H. unfold resolveAlign in H.
    match type of H with
    | (if bytesEqb ?x _ || _ || _ then _ else _) = _ => set (v := x) in *
    end.
    accepted_name bytesEqb_eq H; try discriminate H; injection H as <-;
      match goal with E : v = _ |- _ => rewrite E end;
      (split; [cbn [In]; auto|reflexivity]).
  - intros j H. unfold resolveJustify in H.
    match type of H with
    | (if bytesEqb ?x _ || _ || _ || _ then _ else _) = _ => set (v := x) in *
    end.
    accepted_name bytesEqb_eq H; try discriminate H; injection H as <-;
      match goal with E : v = _ |- _ => rewrite E end;
      (split; [cbn [In]; auto 6|reflexivity]).
  - intros Hv. unfold resolveAlign, resolveJustify. rewrite Hv. now split.
Qed.

Lemma layout_options_closed_witness :
  In (B "bottom") [B "top"; B "center"; B "bottom"]
  /\ resolveAlign (B "bottom") = Done (B "bottom").
Proof.
  apply (proj1 (layout_options_closed (B "  BoTTom ") eq_refl)). reflexivity.
Defined.

(** X13: the transition options have no default: a blank value is
    refused, with the value in the error.  What is accepted comes out as
    one of the names of the API, and such a name is accepted as it is. *)
Theorem transition_options_closed (value : bytes) :
  asciiOnly value ->
  (forall t, resolveTransitionType value = Done t ->
     In t [B "classic"; B "wave"; B "drift"; B "curtain"]
     /\ resolveTransitionType t = Done t)
  /\ (forall s, resolveTransitionSpeed value = Done s ->
        In s [B "fast"; B "gentle"] /\ resolveTransitionSpeed s = Done s)
  /\ (TrimSpace value = [] ->
      resolveTransitionType value = Failed (InvalidTransitionType value)
      /\ resolveTransitionSpeed value = Failed (InvalidTransitionSpeed value)).
Proof.
  intros _. split; [|split].
  - intros t H. unfold resolveTransitionType in H.
    match type of H with
    | (if bytesEqb ?x _ || _ || _ || _ then _ else _) = _ => set (v := x) in *
    end.
    accepted_name bytesEqb_eq H; try discriminate H; injection H as <-;
      match goal with E : v = _ |- _ => rewrite E end;
      (split; [cbn [In]; auto 6|reflexivity]).
  - intros s H. unfold resolveTransitionSpeed in H.
    accepted_name bytesEqb_eq H; try discriminate H; injection H as <-;
      (split; [cbn [In]; auto|reflexivity]).
  - intros Hv. unfold resolveTransitionType, resolveTransitionSpeed.
    rewrite Hv. now split.
Qed.

Lemma transition_options_closed_witness :
  In (B "gentle") [B "fast"; B "gentle"]
  /\ resolveTransitionSpeed (B "gentle") = Done (B "gentle").
Proof.
  apply (proj1 (proj2 (transition_options_closed (B " Gentle") eq_refl))).
  reflexivity.
Defined.

(** ** The transport client, request by request *)

Section TransportFurther.
Context {lib : Library}.





Lemma logHTTP_silent (c : Client) (direction url payload : bytes) (code : Z)
    (w : World) :
  verbose c && logWriter c = false ->
  logHTTP c direction url payload code w = (Ok tt, w).
Proof.
  intros H. unfold logHTTP.
  replace (negb (verbose c) || negb (logWriter c)) with true; [reflexivity|].
  destruct (verbose c), (logWriter c); try reflexivity; discriminate H.
Qed.

(** X17: a client that is not verbose, or has no log writer, writes
    nothing to the log in any of its calls. *)
Theorem quiet_client_logs_nothing (c : Client) (w : World) :
  verbose c && logWriter c = false ->
  (forall text, logged (snd (SendText c text w)) = logged w)
  /\ (forall characters, logged (snd (SendCharacters c characters w)) = logged w)
  /\ (forall message model align justify,
        logged (snd (FormatMessage c message model align justify w)) = logged w).
Proof.
  intros Hq.
  assert (Hpost : forall payload, logged (snd (postMessage c payload w)) = logged w).
  { intros payload. unfold postMessage.
    destruct (ParseURL (baseURL c ++ writePath)) as [url|]; [|reflexivity].
    unfold bind at 1. rewrite logHTTP_silent by assumption.
    unfold bind at 1, doRequest.
    destruct (httpClient c _) as [cause|cause|resp]; try reflexivity.
    unfold bind. rewrite logHTTP_silent by assumption.
    destruct (StatusCode resp =? 409)%Z; [reflexivity|].
    now destruct ((StatusCode resp <? 200) || (StatusCode resp >=? 300))%Z. }
  split; [intros text; apply Hpost|]. split; [intros m; apply Hpost|].
  intros message model align justify. unfold FormatMessage.
  destruct (ParseURL (vbmlURL c ++ vbmlFormatPath)) as [url|]; [|reflexivity].
  unfold bind at 1. rewrite logHTTP_silent by assumption.
  unfold bind at 1, doRequest.
  destruct (httpClient c _) as [cause|cause|resp]; try reflexivity.
  unfold bind. rewrite logHTTP_silent by assumption.
  destruct ((StatusCode resp <? 200) || (StatusCode resp >=? 300))%Z;
    [reflexivity|].
  now destruct (decodeComposeBody (Body resp)).
Qed.

(** X18: a verbose client with a log writer logs, for a board write that
    gets a response, the URL and the payload of the request and then the
    URL, the status code and the payload of the response, each through
    [prettyJSON], and nothing else: no header of the request is written.
    Without a response only the request is logged. *)
Theorem verbose_client_log (c : Client) (payload : json) (w : World) (url : bytes) :
  verbose c = true -> logWriter c = true ->
  ParseURL (baseURL c ++ writePath) = Some url ->
  logged (snd (postMessage c payload w))
  = logged w
    ++ (B "request URL: " ++ url ++ ["010"])
    ++ (B "request payload:" ++ ["010"] ++ prettyJSON (Marshal payload) ++ ["010"])
    ++ match httpClient c (postRequest c url payload) with
       | Reply resp =>
           (B "response URL: " ++ url ++ ["010"])
           ++ (B "response status: " ++ formatInt (StatusCode resp) ++ ["010"])
           ++ (B "response payload:" ++ ["010"] ++ prettyJSON (Body resp) ++ ["010"])
       | _ => []
       end.
Proof.
  intros Hv Hl Hu. unfold postMessage. rewrite Hu.
  unfold logHTTP. rewrite Hv, Hl. cbn [negb orb].
  change (bytesEqb (B "request") (B "request")) with true.
  change (bytesEqb (B "response") (B "request")) with false. cbv iota.
  unfold bind, fprint, doRequest. cbn [logged wire].
  fold (postRequest c url payload).
  destruct (httpClient c (postRequest c url payload)) as [cause|cause|resp];
    cbn [snd logged fail]; rewrite <- ?app_assoc; try now rewrite app_nil_r.
  destruct (StatusCode resp =? 409)%Z;
    [|destruct ((StatusCode resp <? 200) || (StatusCode resp >=? 300))%Z];
    cbn [snd logged fail ret]; now rewrite <- ?app_assoc.
Qed.

End TransportFurther.



Lemma quiet_client_logs_nothing_witness :
  logged (snd (@SendCharacters sampleLibrary
                 (sampleClient (answering 200 (B "200 OK") (B "{}")))
                 [[1; 2]]%Z (mkWorld (B "before") [])))
  = B "before".
Proof.
  apply (proj1 (proj2 (@quiet_client_logs_nothing sampleLibrary
                         (sampleClient (answering 200 (B "200 OK") (B "{}")))
                         (mkWorld (B "before") []) eq_refl))).
Defined.

Lemma verbose_client_log_witness :
  logged (snd (@postMessage sampleLibrary
                 (WithVerboseLogging true true
                    (sampleClient (answering 200 (B "200 OK") (B " {} "))))
                 (JObject [(B "text", JString (B "hi"))]) (mkWorld [] [])))
  = B "request URL: https://cloud.vestaboard.com/" ++ ["010"]
    ++ B "request payload:" ++ ["010"] ++ Q "{'text':'hi'}" ++ ["010"]
    ++ B "response URL: https://cloud.vestaboard.com/" ++ ["010"]
    ++ B "response status: 200" ++ ["010"]
    ++ B "response payload:" ++ ["010"] ++ B "{}" ++ ["010"].
Proof.
  rewrite (@verbose_client_log sampleLibrary
             (WithVerboseLogging true true
                (sampleClient (answering 200 (B "200 OK") (B " {} "))))
             (JObject [(B "text", JString (B "hi"))]) (mkWorld [] [])
             (B "https://cloud.vestaboard.com/") eq_refl eq_refl eq_refl).
  reflexivity.
Defined.

(** ** The commands *)

Section CommandProperties.
Context {lib : Library}.
Variable p : Process.

Lemma buildClient_blank (opts : options) :
  TrimSpace (getenv p envVestaboardToken) = [] ->
  buildClient p opts = Err MissingAPIKey.
Proof.
  intros H. unfold buildClient, NewClient. now rewrite TrimSpace_idem, H.
Qed.


(** X20: without a token nothing happens at all: [runSend] and
    [runSendRaw] fail with the missing-token error before the input is
    looked at, and leave the output, the log and the network untouched. *)
Theorem missing_token_stops_commands (opts : options) (args : list bytes)
    (formatOnly : bool) (k : Console) :
  TrimSpace (getenv p envVestaboardToken) = [] ->
  runSend p opts args formatOnly k = (Failed (ClientError MissingAPIKey), k)
  /\ runSendRaw p opts args k = (Failed (ClientError MissingAPIKey), k).
Proof.
  intros H. unfold runSend, runSendRaw. rewrite (buildClient_blank opts H).
  now split.
Qed.

Lemma usageError_run {A : Type} (e : cmdError) (k : Console) :
  @usageError p A e k = (Failed e, snd (printHelp p k)).
Proof. reflexivity. Qed.

Lemma printHelp_console (k : Console) :
  world (snd (printHelp p k)) = world k
  /\ stdout (snd (printHelp p k))
     = stdout k ++ (if stdoutWritable p then helpText p else []).
Proof.
  unfold printHelp. cbn [snd].
  destruct (stdoutWritable p); cbn [world stdout]; [now split|].
  now rewrite app_nil_r.
Qed.

Lemma callClient_failure {A : Type} (m : Eff A) (k k' : Console) (e : cmdError) :
  callClient m k = (Failed e, k') -> isUsageError e = false.
Proof.
  unfold callClient. destruct (m (world k)) as [[a|err] w];
    intros H; [discriminate H|]. now injection H as <- _.
Qed.

Lemma resolveCommandInput_cases (args : list bytes) (argName : bytes)
    (k : Console) :
  (exists resolved, resolveCommandInput p args argName k = (Done resolved, k))
  \/ resolveCommandInput p args argName k = (Failed ReadInputError, k)
  \/ resolveCommandInput p args argName k
     = (Failed (MissingArgument argName), snd (printHelp p k)).
Proof.
  unfold resolveCommandInput.
  set (more := if isTerminal (stdin p)
               then usageError p (MissingArgument argName)
               else match contents (stdin p) with
                    | None => cmdFail ReadInputError
                    | Some data => cmdRet (TrimSpace data)
                    end).
  assert (Hmore :
    (exists resolved, more k = (Done resolved, k))
    \/ more k = (Failed ReadInputError, k)
    \/ more k = (Failed (MissingArgument argName), snd (printHelp p k))).
  { unfold more. destruct (isTerminal (stdin p)); [right; right; reflexivity|].
    destruct (contents (stdin p));
      [left; eexists; reflexivity|right; left; reflexivity]. }
  destruct args as [|arg [|arg' args]]; try exact Hmore.
  destruct (resolveValue p arg);
    [left; eexists; reflexivity|right; left; reflexivity].
Qed.

Lemma sendRawResolved_usage (client : Client) (resolved : bytes) (k k' : Console)
    (e : cmdError) :
  sendRawResolved p client resolved k = (Failed e, k') ->
  isUsageError e = true ->
  k' = snd (printHelp p k).
Proof.
  unfold sendRawResolved. destruct (parseCharacters resolved) as [m|err].
  - intros H Hu. apply callClient_failure in H. congruence.
  - rewrite usageError_run. now intros [= _ <-].
Qed.

Lemma runSendRaw_usage (opts : options) (args : list bytes) (k k' : Console)
    (e : cmdError) :
  runSendRaw p opts args k = (Failed e, k') ->
  isUsageError e = true ->
  k' = snd (printHelp p k).
Proof.
  unfold runSendRaw. destruct (buildClient p opts) as [client|err].
  2:{ intros [= <- _] Hu. discriminate Hu. }
  unfold cmdBind.
  destruct (resolveCommandInput_cases args (B "characters-json") k)
    as [[resolved ->]|[->| ->]].
  - apply sendRawResolved_usage.
  - intros [= <- _] Hu. discriminate Hu.
  - now intros [= _ <-].
Qed.

Lemma runSend_usage (opts : options) (args : list bytes) (formatOnly : bool)
    (k k' : Console) (e : cmdError) :
  runSend p opts args formatOnly k = (Failed e, k') ->
  isUsageError e = true ->
  k' = snd (printHelp p k).
Proof.
  unfold runSend. destruct (buildClient p opts) as [client|err].
  2:{ intros [= <- _] Hu. discriminate Hu. }
  unfold cmdBind at 1.
  destruct (resolveCommandInput_cases args (B "message") k)
    as [[resolved ->]|[->| ->]].
  - destruct (looksLikeRawCharactersJSON resolved);
      [apply sendRawResolved_usage|].
    destruct (resolveModel (getenv p) (optModel opts));
      [|rewrite usageError_run; now intros [= _ <-]].
    destruct (resolveAlign (optAlign opts));
      [|rewrite usageError_run; now intros [= _ <-]].
    destruct (resolveJustify (optJustify opts));
      [|rewrite usageError_run; now intros [= _ <-]].
    unfold cmdBind.
    destruct (callClient (FormatMessage client _ _ _ _) k) as [[m|err] k1] eqn:Hf.
    + destruct formatOnly.
      * unfold println. destruct (stdoutWritable p);
          intros [= <- _] Hu; discriminate Hu.
      * intros H Hu. apply callClient_failure in H. congruence.
    + intros [= <- _] Hu. apply callClient_failure in Hf. congruence.
  - intros [= <- _] Hu. discriminate Hu.
  - now intros [= _ <-].
Qed.

(** X21: a command that ends in a usage error (an option that is not
    accepted, a wrong number of arguments, a missing argument, raw input
    that is no matrix) has sent nothing and logged nothing; all it has
    done is to print its help text on the standard output. *)
Theorem usage_errors_send_nothing (opts : options) (formatFlag : bool)
    (args : list bytes) (k : Console) (e : cmdError) (run : Cmd unit) :
  In run [sendRawCmd p opts args; sendCmd p opts formatFlag args;
          formatCmd p opts args; clearCmd p opts args] ->
  fst (run k) = Failed e ->
  isUsageError e = true ->
  world (snd (run k)) = world k
  /\ stdout (snd (run k))
     = stdout k ++ (if stdoutWritable p then helpText p else []).
Proof.
  intros Hrun He Hu.
  enough (H : snd (run k) = snd (printHelp p k))
    by (rewrite H; apply printHelp_console).
  destruct (run k) as [r k'] eqn:E. cbn [fst snd] in *. subst r.
  assert (Hargs : forall (check : Cmd unit) (body : Cmd unit),
            (check k = (Done tt, k)
             \/ exists e', check k = (Failed e', snd (printHelp p k))) ->
            (forall e' k1, body k = (Failed e', k1) -> isUsageError e' = true ->
                           k1 = snd (printHelp p k)) ->
            cmdBind check (fun _ => body) k = (Failed e, k') ->
            k' = snd (printHelp p k)).
  { intros check body [Hc|[e' Hc]] Hbody; unfold cmdBind; rewrite Hc.
    - intros H. now apply (Hbody e).
    - now intros [= _ <-]. }
  assert (Hexact : forall n,
            exactArgsWithHelp p n args k = (Done tt, k)
            \/ exists e', exactArgsWithHelp p n args k
                          = (Failed e', snd (printHelp p k))).
  { intros n. unfold exactArgsWithHelp.
    destruct (Nat.eqb (length args) n); [now left|right; eexists; reflexivity]. }
  assert (Hmax : forall n,
            maxArgsWithHelp p n args k = (Done tt, k)
            \/ exists e', maxArgsWithHelp p n args k
                          = (Failed e', snd (printHelp p k))).
  { intros n. unfold maxArgsWithHelp.
    destruct (Nat.leb (length args) n); [now left|right; eexists; reflexivity]. }
  destruct Hrun as [<-|[<-|[<-|[<-|[]]]]].
  - revert E. apply Hargs; [apply Hmax|]. intros e' k1. apply runSendRaw_usage.
  - revert E. apply Hargs; [apply Hmax|]. intros e' k1. apply runSend_usage.
  - revert E. apply Hargs; [apply Hexact|]. intros e' k1. apply runSend_usage.
  - revert E. apply Hargs; [apply Hexact|]. intros e' k1. apply runSend_usage.
Qed.





(** X26: what a command reads from the standard input, for want of an
    argument or for the argument [-], is trimmed; so when the sniffer takes
    such an input for a raw matrix, the parser of the raw path, which gets
    the same text, does decode it: the only raw-input error left is the
    empty array. *)
Theorem sniffed_stdin_input_parses (args : list bytes) (argName resolved : bytes)
    (k : Console) :
  args = [] \/ args = [B "-"] ->
  resolveCommandInput p args argName k = (Done resolved, k) ->
  looksLikeRawCharactersJSON resolved = true ->
  TrimSpace resolved = resolved
  /\ parseCharacters resolved <> Failed NotAMatrix.
Proof.
  intros Hargs Hi Hs.
  assert (Ht : TrimSpace resolved = resolved).
  { unfold resolveCommandInput in Hi. destruct Hargs as [-> | ->].
    - destruct (isTerminal (stdin p)); [discriminate Hi|].
      destruct (contents (stdin p)); [|discriminate Hi].
      injection Hi as <-. apply TrimSpace_idem.
    - unfold resolveValue in Hi.
      change (negb (bytesEqb (B "-") (B "-"))) with false in Hi. cbv iota in Hi.
      destruct (contents (stdin p)); [|discriminate Hi].
      injection Hi as <-. apply TrimSpace_idem. }
  split; [exact Ht|].
  unfold looksLikeRawCharactersJSON in Hs. rewrite Ht in Hs.
  unfold parseCharacters.
  destruct (length resolved <? 10)%nat; [discriminate Hs|].
  destruct (negb (hasPrefix resolved (B "[")) || negb (hasSuffix resolved (B "]")));
    [discriminate Hs|].
  destruct (unmarshalMatrix resolved) as [[|row rows]|];
    [discriminate|discriminate|discriminate Hs].
Qed.

End CommandProperties.

Lemma missing_token_stops_commands_witness :
  @runSend sampleLibrary (sampleProcess (B "  ") [] noInput (fun _ => NoReply []))
     (sampleOptions []) [B "hello"] false emptyConsole
  = (Failed (ClientError MissingAPIKey), emptyConsole).
Proof.
  apply (proj1 (@missing_token_stops_commands sampleLibrary
                  (sampleProcess (B "  ") [] noInput (fun _ => NoReply []))
                  (sampleOptions []) [B "hello"] false emptyConsole eq_refl)).
Defined.

Lemma usage_errors_send_nothing_witness :
  world (snd (@sendCmd sampleLibrary
                (sampleProcess (B "abc123") [] noInput (fun _ => NoReply []))
                (sampleOptions (B "big")) false [B "hello"] emptyConsole))
  = mkWorld [] [].
Proof.
  apply (proj1 (@usage_errors_send_nothing sampleLibrary
                  (sampleProcess (B "abc123") [] noInput (fun _ => NoReply []))
                  (sampleOptions (B "big")) false [B "hello"] emptyConsole
                  (InvalidModel (B "big")) _
                  (or_intror (or_introl eq_refl)) eq_refl eq_refl)).
Defined.




Lemma sniffed_stdin_input_parses_witness :
  parseCharacters (B "[[1,2],[3,4]]") <> Failed NotAMatrix.
Proof.
  apply (proj2 (sniffed_stdin_input_parses
                  (sampleProcess (B "abc123") []
                     (mkStdin false (Some (B "  [[1,2],[3,4]]  ")))
                     (fun _ => NoReply []))
                  [] (B "message") (B "[[1,2],[3,4]]") emptyConsole
                  (or_introl eq_refl) eq_refl eq_refl)).
Defined.

(** ** The layout of the board state *)

Lemma decodeLayoutField_others (members : list (bytes * json)) (cur : bytes) :
  (forall key v, In (key, v) members -> matchesField key (B "layout") = false) ->
  decodeLayoutField cur members = Some cur.
Proof.
  induction members as [|[key v] members IH]; intros H; [reflexivity|].
  cbn [decodeLayoutField]. rewrite (H key v) by now left.
  apply IH. intros key' v' Hin. apply (H key' v'). now right.
Qed.

Lemma decodeCurrentMessageField_others (members : list (bytes * json))
    (cur : bytes) :
  (forall key v, In (key, v) members ->
                 matchesField key (B "currentMessage") = false) ->
  decodeCurrentMessageField cur members = Some cur.
Proof.
  induction members as [|[key v] members IH]; intros H; [reflexivity|].
  cbn [decodeCurrentMessageField]. rewrite (H key v) by now left.
  apply IH. intros key' v' Hin. apply (H key' v'). now right.
Qed.

(** X27: [extractLayout] finds the string under [currentMessage] and
    [layout] whatever other members the two objects have, before or after;
    an empty string there counts as no layout. *)
Theorem extractLayout_found (stateJSON layout : bytes)
    (before after inside_before inside_after : list (bytes * json)) :
  jsonParse stateJSON
  = Some (JObject
            (before
             ++ (B "currentMessage",
                 JObject (inside_before
                          ++ (B "layout", JString layout) :: inside_after))
             :: after)) ->
  (forall key v, In (key, v) (before ++ after) ->
                 matchesField key (B "currentMessage") = false) ->
  (forall key v, In (key, v) (inside_before ++ inside_after) ->
                 matchesField key (B "layout") = false) ->
  extractLayout stateJSON
  = match layout with
    | [] => Failed LayoutNotFound
    | _ :: _ => Done layout
    end.
Proof.
  intros Hp Hout Hin. unfold extractLayout, unmarshalLayout. rewrite Hp.
  assert (Hinner : forall cur,
            decodeLayoutField cur
              (inside_before ++ (B "layout", JString layout) :: inside_after)
            = Some layout).
  { intros cur. clear Hp. induction inside_before as [|[key v] ms IH].
    - cbn [app decodeLayoutField].
      change (matchesField (B "layout") (B "layout")) with true. cbv iota.
      cbn [decodeString]. apply decodeLayoutField_others.
      intros key v H. apply (Hin key v). exact H.
    - cbn [app decodeLayoutField]. rewrite (Hin key v) by now left.
      apply IH. intros key' v' H. apply (Hin key' v'). now right. }
  assert (Houter : forall cur,
            decodeCurrentMessageField cur
              (before
               ++ (B "currentMessage",
                   JObject (inside_before
                            ++ (B "layout", JString layout) :: inside_after))
               :: after)
            = Some layout).
  { intros cur. clear Hp. induction before as [|[key v] ms IH].
    - cbn [app decodeCurrentMessageField].
      change (matchesField (B "currentMessage") (B "currentMessage")) with true.
      cbv iota. cbn [decodeCurrentMessage]. rewrite Hinner.
      apply decodeCurrentMessageField_others.
      intros key v H. apply (Hout key v). exact H.
    - cbn [app decodeCurrentMessageField]. rewrite (Hout key v) by now left.
      apply IH. intros key' v' H. apply (Hout key' v'). now right. }
  rewrite Houter. now destruct layout.
Qed.

Lemma extractLayout_found_witness :
  extractLayout
    (Q "{'id':'x','currentMessage':{'id':'y','layout':'1234','appeared':17},'more':null}")
  = Done (B "1234").
Proof.
  apply (extractLayout_found
           (Q "{'id':'x','currentMessage':{'id':'y','layout':'1234','appeared':17},'more':null}")
           (B "1234")
           [(B "id", JString (B "x"))] [(B "more", JNull)]
           [(B "id", JString (B "y"))] [(B "appeared", JNumber (B "17"))]
           eq_refl).
  - intros key v [H|[H|[]]]; injection H as <- _; reflexivity.
  - intros key v [H|[H|[]]]; injection H as <- _; reflexivity.
Defined.
